(** * Implicit ALS on the Book-Crossing data: the notebook's data preparation
      and recommendation query, embedded and verified.

    The notebook [Implicit_ALS_books.ipynb] is a PySpark script.  Its own code
    is a pipeline of RDD transformations:

    - a [grep] that selects the lines of [BX-Book-Ratings.csv] holding ["0"];
    - the parsing of each line into [(int, str, int)];
    - the densification of ISBN strings through [distinct], [zipWithIndex]
      and [join];
    - the replacement of every rating by the constant [1];
    - the call of [ALS.trainImplicit] (a library routine, kept abstract here);
    - the query: books of user 8, the unseen books, [predictAll] (library,
      abstract) and [takeOrdered] with the key [-rating].

    An RDD is modelled by the list of its elements in partition order, a
    Python tuple by a product, a Python [int] by [Z], a [str] by [string], a
    [float] score by a rational (only the order of the scores matters; a
    score that is not a number is not modelled).
    Python exceptions raised by the lambdas are modelled by a sum type, the
    failure of a job by the exceptions of its failing elements. *)

From Stdlib Require Import String Ascii List ZArith QArith Lia Bool.
From Stdlib Require Import Permutation Sorted.
From Stdlib Require DecimalString DecimalZ DecimalPos.
Import ListNotations.

Local Open Scope Z_scope.

(** ** Python primitives used by the lambdas *)

Module Py.

(** The two exceptions the parsing lambda can raise ([UnicodeEncodeError]
    is a [ValueError]). *)
Inductive error : Type :=
| IndexError
| ValueError.

Definition result (A : Type) : Type := (error + A)%type.

Definition ret {A : Type} (a : A) : result A := inr a.

Definition bind {A B : Type} (m : result A) (k : A -> result B) : result B :=
  match m with
  | inl e => inl e
  | inr a => k a
  end.

(** The outcome of a Spark job over an RDD: its value, or a failure.  Spark
    runs one task per partition and reports the exception of whichever
    task fails first; the partitions are not in the source, so a failure is
    modelled by the exceptions of all the failing elements, in the order
    of the RDD, the one reported being one of them. *)
Definition job (A : Type) : Type := (list error + A)%type.

Definition fmap {E A B : Type} (f : A -> B) (m : E + A) : E + B :=
  match m with
  | inl e => inl e
  | inr a => inr (f a)
  end.

(** [rdd.map(f)] for a lambda that may raise, evaluated in full. *)
Fixpoint mapM {A B : Type} (f : A -> result B) (l : list A) : job (list B) :=
  match l with
  | [] => inr []
  | a :: l' =>
      match f a, mapM f l' with
      | inr b, inr bs => inr (b :: bs)
      | inr _, inl es => inl es
      | inl e, inr _ => inl [e]
      | inl e, inl es => inl (e :: es)
      end
  end.

(** [x is u] for a Python [int] [x] read from the RDD and an integer
    literal [u]: the integers from -5 to 256 are shared objects, so
    identity is equality there; any other literal is an object of its own,
    identical to no element of the RDD. *)
Definition same_int (x u : Z) : bool :=
  (x =? u) && (-5 <=? u) && (u <=? 256).

(** The double-quote character. *)
Definition dquote : ascii := "034"%char.

(** [s.replace(c, "")] for a one-character [c]: every occurrence is removed. *)
Fixpoint remove_char (c : ascii) (s : string) : string :=
  match s with
  | EmptyString => EmptyString
  | String a s' =>
      if Ascii.eqb a c then remove_char c s' else String a (remove_char c s')
  end.

(** [s.split(sep)] for a one-character separator: never the empty list. *)
Fixpoint split (sep : ascii) (s : string) : list string :=
  match s with
  | EmptyString => [EmptyString]
  | String a s' =>
      if Ascii.eqb a sep then EmptyString :: split sep s'
      else match split sep s' with
           | [] => [String a EmptyString]
           | w :: ws => String a w :: ws
           end
  end.

(** [x[n]] on a Python list. *)
Definition item {A : Type} (x : list A) (n : nat) : result A :=
  match nth_error x n with
  | Some a => inr a
  | None => inl IndexError
  end.

(** ASCII characters for which [str.isspace] holds. *)
Definition is_space (c : ascii) : bool :=
  let n := nat_of_ascii c in
  ((9 <=? n) && (n <=? 13) || (28 <=? n) && (n <=? 32))%nat.

Fixpoint lstrip (s : string) : string :=
  match s with
  | EmptyString => EmptyString
  | String a s' => if is_space a then lstrip s' else s
  end.

Fixpoint rstrip (s : string) : string :=
  match s with
  | EmptyString => EmptyString
  | String a s' =>
      match rstrip s' with
      | EmptyString => if is_space a then EmptyString else String a EmptyString
      | t => String a t
      end
  end.

Definition digit_of (c : ascii) : option Z :=
  let n := nat_of_ascii c in
  if ((48 <=? n) && (n <=? 57))%nat then Some (Z.of_nat (n - 48)) else None.

(** The value of a string of decimal digits, [acc] being the value of the
    digits already read; [None] on anything else and on no digit at all. *)
Fixpoint digits (acc : Z) (s : string) : option Z :=
  match s with
  | EmptyString => None
  | String a s' =>
      match digit_of a with
      | Some d =>
          match s' with
          | EmptyString => Some (10 * acc + d)
          | _ => digits (10 * acc + d) s'
          end
      | None => None
      end
  end.

(** [int(s)] of Python 2.7 (the notebook's kernel) on a decimal literal:
    surrounding white space, an optional sign, then ASCII digits.  Anything
    else raises [ValueError].  The model refuses what Python accepts beyond
    that (the decimal digits of other scripts). *)
Definition int (s : string) : result Z :=
  let body :=
    match rstrip (lstrip s) with
    | String "-"%char t => option_map Z.opp (digits 0 t)
    | String "+"%char t => digits 0 t
    | t => digits 0 t
    end in
  match body with
  | Some z => inr z
  | None => inl ValueError
  end.

(** A character above 127 stands for a character outside ASCII. *)
Fixpoint all_ascii (s : string) : bool :=
  match s with
  | EmptyString => true
  | String a s' => (nat_of_ascii a <? 128)%nat && all_ascii s'
  end.

(** [str(s)] of Python 2.7 on the text read by [textFile]: the same text
    when it is ASCII, [UnicodeEncodeError] (a [ValueError]) otherwise. *)
Definition str (s : string) : result string :=
  if all_ascii s then inr s else inl ValueError.

(** [pat in s]: the fixed string [pat] occurs somewhere in [s]. *)
Fixpoint contains (pat s : string) : bool :=
  prefix pat s ||
  match s with
  | EmptyString => false
  | String _ s' => contains pat s'
  end.

End Py.

Import Py.

Notation "x <- m ;; k" := (bind m (fun x => k))
  (at level 61, m at next level, right associativity).

(** ** The text stage: [grep] and the parsing of a line *)

(** The pattern of [grep '"0"']: a zero between double quotes. *)
Definition grep_pattern : string :=
  String dquote (String "0"%char (String dquote EmptyString)).

(** [grep pat file]: the lines of [file] in which [pat] occurs, in order. *)
Definition grep (pat : string) (file : list string) : list string :=
  filter (contains pat) file.

(** [implicit.csv], from the lines of [BX-Book-Ratings.csv]. *)
Definition implicit_csv (BX_Book_Ratings : list string) : list string :=
  grep grep_pattern BX_Book_Ratings.

(** A parsed row: [(user id, isbn, rating)]. *)
Definition row : Type := (Z * string * Z)%type.

(** [lambda x: (int(x[0]), str(x[1]), int(x[2]))], evaluated left to right. *)
Definition parse_fields (x : list string) : result row :=
  f0 <- item x 0 ;;
  u <- int f0 ;;
  f1 <- item x 1 ;;
  s <- str f1 ;;
  f2 <- item x 2 ;;
  r <- int f2 ;;
  ret (u, s, r).

(** One line through the three [map]s of the [ratings] cell. *)
Definition parse_line (line : string) : result row :=
  parse_fields (split ";"%char (remove_char dquote line)).

(** [ratings = sc.textFile('implicit.csv').map(...).map(...).map(...)]. *)
Definition ratings (implicit : list string) : job (list row) :=
  mapM parse_line implicit.

(** The text of one row of [BX-Book-Ratings.csv], every field between quotes. *)
Definition quoted (s : string) : string :=
  String dquote (s ++ String dquote EmptyString).

Definition csv_line (u s r : string) : string :=
  (quoted u ++ ";" ++ quoted s ++ ";" ++ quoted r)%string.


(** ** RDD transformations *)

Module RDD.

(** [rdd.zipWithIndex()]: each element with its position, from [start]. *)
Fixpoint zipWithIndex_from {A : Type} (start : Z) (l : list A) : list (A * Z) :=
  match l with
  | [] => []
  | a :: l' => (a, start) :: zipWithIndex_from (start + 1) l'
  end.

Definition zipWithIndex {A : Type} (l : list A) : list (A * Z) :=
  zipWithIndex_from 0 l.

(** [left.join(right)] on string keys: one output element for every pair
    of a left and a right element with the same key. *)
Definition join {V W : Type} (left : list (string * V)) (right : list (string * W))
  : list (string * (V * W)) :=
  flat_map
    (fun kv =>
       map (fun kw => (fst kv, (snd kv, snd kw)))
           (filter (fun kw => String.eqb (fst kw) (fst kv)) right))
    left.

(** Insertion before the first element whose key is not smaller. *)
Fixpoint insert_by {A : Type} (key : A -> Q) (x : A) (l : list A) : list A :=
  match l with
  | [] => [x]
  | y :: l' =>
      if Qle_bool (key x) (key y) then x :: y :: l' else y :: insert_by key x l'
  end.

(** [a] may stand before [b] in a list ascending in the key. *)
Definition key_le {A : Type} (key : A -> Q) (a b : A) : Prop :=
  (key a <= key b)%Q.

(** [sorted(l, key=key)]: ascending in the key, stable. *)
Definition sorted {A : Type} (key : A -> Q) (l : list A) : list A :=
  fold_right (insert_by key) [] l.

(** [rdd.takeOrdered(num, key)]: PySpark computes it with
    [heapq.nsmallest(num, ., key)], which Python documents as
    [sorted(., key=key)[:num]]. *)
Definition takeOrdered {A : Type} (num : nat) (key : A -> Q) (l : list A) : list A :=
  firstn num (sorted key l).

(** The value a table associates with a key ([0] when the key is absent);
    used to describe the outcome of a join against that table. *)
Definition lookup (t : list (string * Z)) (k : string) : Z :=
  match find (fun kw => String.eqb (fst kw) k) t with
  | Some kw => snd kw
  | None => 0
  end.

(** How many elements of [l] satisfy [p]. *)
Definition count {A : Type} (p : A -> bool) (l : list A) : nat :=
  length (filter p l).

(** One possible result of [rdd.distinct()]: first occurrences, in order.
    Spark leaves the order unspecified; the pipeline below takes [distinct]
    as a parameter and this instance serves for the concrete runs. *)
Fixpoint distinct_first (l : list string) : list string :=
  match l with
  | [] => []
  | x :: l' => x :: filter (fun y => negb (String.eqb y x)) (distinct_first l')
  end.

End RDD.

Import RDD.

(** ** The notebook *)

(** [pyspark.mllib.recommendation.Rating]: a named tuple
    [(user, product, rating)]; [x[2]] is [rating x]. *)
Record Rating : Type := mkRating { user : Z; product : Z; rating : Q }.

(** A triple handed to the trainer: [(user id, item index, strength)]. *)
Definition triple : Type := (Z * Z * Z)%type.

Section Notebook.

(** [rdd.distinct()] in whatever order Spark produces, the same at every
    use of the RDD. *)
Variable distinct : list string -> list string.

(** The library: the trained model, [ALS.trainImplicit] and
    [model.predictAll]. *)
Variable Model : Type.
Variable trainImplicit : list triple -> forall (rank iterations : nat) (alpha : Q), Model.
Variable predictAll : Model -> list (Z * Z) -> list Rating.

(** [isbns = ratings.map(lambda x: x[1]).distinct()] *)
Definition isbns (ratings : list row) : list string :=
  distinct (map (fun x => snd (fst x)) ratings).

(** [isbns_with_indices = isbns.zipWithIndex()] *)
Definition isbns_with_indices (ratings : list row) : list (string * Z) :=
  zipWithIndex (isbns ratings).

(** [reordered_ratings = ratings.map(lambda x: (x[1], (x[0], x[2])))] *)
Definition reordered_ratings (ratings : list row) : list (string * (Z * Z)) :=
  map (fun x => (snd (fst x), (fst (fst x), snd x))) ratings.

(** [joined = reordered_ratings.join(isbns_with_indices)] *)
Definition joined (ratings : list row) : list (string * ((Z * Z) * Z)) :=
  join (reordered_ratings ratings) (isbns_with_indices ratings).

(** [ratings_int_nice = joined.map(lambda x: (x[1][0][0], x[1][1], x[1][0][1]))] *)
Definition ratings_int_nice (ratings : list row) : list triple :=
  map (fun x => (fst (fst (snd x)), snd (snd x), snd (fst (snd x)))) (joined ratings).

(** [ratings_ones = ratings_int_nice.map(lambda x: (x[0], x[1], 1))] *)
Definition ratings_ones (ratings : list row) : list triple :=
  map (fun x => (fst (fst x), snd (fst x), 1)) (ratings_int_nice ratings).

(** The whole preparation, from the lines of [BX-Book-Ratings.csv] to the
    argument of the trainer. *)
Definition prepared (BX_Book_Ratings : list string) : job (list triple) :=
  fmap ratings_ones (ratings (implicit_csv BX_Book_Ratings)).

(** [model = ALS.trainImplicit(ratings_ones, rank=5, iterations=3, alpha=0.99)] *)
Definition model (ratings : list row) : Model :=
  trainImplicit (ratings_ones ratings) 5 3 (99 # 100).

(** [users_books = ratings_ones.filter(lambda x: x[0] is u).map(lambda x: x[1])]
    and its [collect()].  The notebook runs the query for [u = 8]. *)
Definition users_books (u : Z) (ratings : list row) : list Z :=
  map (fun x => snd (fst x))
      (filter (fun x => same_int (fst (fst x)) u) (ratings_ones ratings)).

Definition books_for_them (u : Z) (ratings : list row) : list Z :=
  users_books u ratings.

(** [x not in books_for_them] *)
Definition not_in (x : Z) (l : list Z) : bool := negb (existsb (Z.eqb x) l).

(** [unseen = isbns_with_indices.map(lambda x: x[1])
                .filter(lambda x: x not in books_for_them)
                .map(lambda x: (u, int(x)))] *)
Definition unseen (u : Z) (ratings : list row) : list (Z * Z) :=
  map (fun x => (u, x))
      (filter (fun x => not_in x (books_for_them u ratings))
              (map snd (isbns_with_indices ratings))).

(** [predictions = model.predictAll(unseen)] *)
Definition predictions (u : Z) (ratings : list row) : list Rating :=
  predictAll (model ratings) (unseen u ratings).

(** [predictions.takeOrdered(num, lambda x: -x[2])]; the notebook asks for
    [num = 20]. *)
Definition top (num : nat) (preds : list Rating) : list Rating :=
  takeOrdered num (fun x => - rating x)%Q preds.

End Notebook.

(** ** Properties asked of a ranked answer *)

(** [r] has the score [s]. *)
Definition has_score (s : Q) (r : Rating) : bool := Qeq_bool (rating r) s.

(** [a] may stand before [b] in an answer ranked by descending score. *)
Definition score_ge (a b : Rating) : Prop := (rating b <= rating a)%Q.

(** Equal scores are ranked by ascending item index. *)
Definition ties_ascending (l : list Rating) : Prop :=
  forall l1 a l2 b l3,
    l = l1 ++ a :: l2 ++ b :: l3 -> (rating a == rating b)%Q -> product a < product b.

(** ** Sample inputs *)

(** User 8 has the same book twice. *)
Definition twice : list row := [(8, "A"%string, 0); (8, "A"%string, 0)].

(** Three rows, two books. *)
Definition three_rows : list row :=
  [(8, "A"%string, 0); (9, "B"%string, 0); (9, "A"%string, 0)].

(** Two lines, the first two rows the notebook prints. *)
Definition two_lines : list string :=
  [csv_line "276725" "034545104X" "0"; csv_line "276727" "0446520802" "0"].

(** Two predictions with the same score, the larger item first. *)
Definition tied : list Rating := [mkRating 8 5 1; mkRating 8 2 1].

(** A stand-in for the library's [predictAll]: it scores every pair it is
    asked about with the product index. *)
Definition predict_index (_ : unit) (q : list (Z * Z)) : list Rating :=
  map (fun p => mkRating (fst p) (snd p) (inject_Z (snd p))) q.

(** A stand-in for the library's [predictAll] with equal scores: it scores
    every pair it is asked about with the parity of the product index. *)
Definition predict_parity (_ : unit) (q : list (Z * Z)) : list Rating :=
  map (fun p => mkRating (fst p) (snd p) (inject_Z (snd p mod 2))) q.

(** Five rows, five books; user 8 has the first one. *)
Definition five_rows : list row :=
  [(8, "A"%string, 0); (9, "B"%string, 0); (9, "C"%string, 0);
   (9, "D"%string, 0); (9, "E"%string, 0)].

(** A stand-in for the trainer, for a model that holds nothing. *)
Definition no_training (_ : list triple) (_ _ : nat) (_ : Q) : unit := tt.


(** ** Further notions used to state properties of the text stage *)

(** [c in s] for a character. *)
Fixpoint occurs (c : ascii) (s : string) : bool :=
  match s with
  | EmptyString => false
  | String a s' => Ascii.eqb a c || occurs c s'
  end.

(** [s.count(c)]: how many times the character occurs. *)
Fixpoint count_char (c : ascii) (s : string) : nat :=
  match s with
  | EmptyString => O
  | String a s' => ((if Ascii.eqb a c then 1 else 0) + count_char c s')%nat
  end.

(** The usual decimal writing of an integer, as the data set has it. *)
Definition decimal (z : Z) : string :=
  DecimalString.NilZero.string_of_int (Z.to_int z).

(** The line of the file that holds a row. *)
Definition line_of (x : row) : string :=
  csv_line (decimal (fst (fst x))) (snd (fst x)) (decimal (snd x)).

(** The user id, the ISBN or the rating of the row is written [0]. *)
Definition zero_field (x : row) : bool :=
  (fst (fst x) =? 0) || String.eqb (snd (fst x)) "0" || (snd x =? 0).

(** Printable ASCII, from the space to the tilde: no line terminator and
    no NUL, so that a text stays on its line of a text file. *)
Fixpoint printable (s : string) : bool :=
  match s with
  | EmptyString => true
  | String a s' =>
      ((32 <=? nat_of_ascii a) && (nat_of_ascii a <=? 126))%nat && printable s'
  end.

(** A field of the file that can stand between quotes and semicolons. *)
Definition plain (s : string) : Prop :=
  occurs dquote s = false /\ occurs ";"%char s = false.

(** The key a table associates with a value (the empty text when the value
    is absent); used to rename the indices of one table into another. *)
Definition isbn_of (t : list (string * Z)) (n : Z) : string :=
  match find (fun kw => snd kw =? n) t with
  | Some kw => fst kw
  | None => EmptyString
  end.

(** ** Further sample inputs *)

(** Another possible result of [rdd.distinct()]: first occurrences, last
    first. *)
Definition distinct_reversed (l : list string) : list string :=
  rev (distinct_first l).

(** A line in the format of the file. *)
Definition first_line : string := csv_line "276725" "034545104X" "0".

(** The three rows with other ratings. *)
Definition three_rows_rated : list row :=
  [(8, "A"%string, 5); (9, "B"%string, 7); (9, "A"%string, 1)].

(** Two predictions with different scores, in both orders. *)
Definition two_scores : list Rating := [mkRating 8 5 1; mkRating 8 2 3].

Definition two_scores_swapped : list Rating := [mkRating 8 2 3; mkRating 8 5 1].

(** A file of three rows, one without any zero. *)
Definition written_rows : list row :=
  [(276725, "034545104X"%string, 0); (276726, "0155061224"%string, 5);
   (276727, "0446520802"%string, 0)].

(** ** Facts about the RDD transformations *)

Section RDDFacts.

Context {A : Type}.

Lemma zipWithIndex_from_fst (l : list A) : forall start,
  map fst (zipWithIndex_from start l) = l.
Proof.
  induction l as [| a l IH]; intros start; simpl; [reflexivity |].
  now rewrite IH.
Qed.

Lemma zipWithIndex_from_length (l : list A) : forall start,
  length (zipWithIndex_from start l) = length l.
Proof.
  induction l as [| a l IH]; intros start; simpl; [reflexivity |].
  now rewrite IH.
Qed.

(** The indices handed out are exactly [start, start + length l). *)
Lemma zipWithIndex_from_snd (l : list A) : forall start n,
  In n (map snd (zipWithIndex_from start l)) <->
  start <= n < start + Z.of_nat (length l).
Proof.
  induction l as [| a l IH]; intros start n; simpl.
  - split; [tauto | lia].
  - rewrite IH. lia.
Qed.

Lemma zipWithIndex_from_NoDup_snd (l : list A) : forall start,
  NoDup (map snd (zipWithIndex_from start l)).
Proof.
  induction l as [| a l IH]; intros start; simpl; constructor.
  - rewrite zipWithIndex_from_snd. lia.
  - apply IH.
Qed.

Lemma zipWithIndex_fst (l : list A) : map fst (zipWithIndex l) = l.
Proof. apply zipWithIndex_from_fst. Qed.

Lemma zipWithIndex_snd (l : list A) (n : Z) :
  In n (map snd (zipWithIndex l)) <-> 0 <= n < Z.of_nat (length l).
Proof. unfold zipWithIndex. rewrite zipWithIndex_from_snd. lia. Qed.

Lemma zipWithIndex_NoDup_snd (l : list A) : NoDup (map snd (zipWithIndex l)).
Proof. apply zipWithIndex_from_NoDup_snd. Qed.

(** In a table whose first components are pairwise distinct, an entry is
    determined by its first component, ... *)
Lemma NoDup_fst_functional {B : Type} (t : list (A * B)) a b b' :
  NoDup (map fst t) -> In (a, b) t -> In (a, b') t -> b = b'.
Proof.
  induction t as [| [a0 b0] t IH]; simpl; intros ND H1 H2; [tauto |].
  inversion ND as [| ? ? Hnotin ND']; subst.
  destruct H1 as [E1 | H1], H2 as [E2 | H2].
  - congruence.
  - inversion E1; subst. exfalso. apply Hnotin.
    change a with (fst (a, b')). now apply in_map.
  - inversion E2; subst. exfalso. apply Hnotin.
    change a with (fst (a, b)). now apply in_map.
  - now apply IH.
Qed.

(** ... and, when the second components are pairwise distinct too, by its
    second component. *)
Lemma NoDup_snd_injective {B : Type} (t : list (A * B)) a a' b :
  NoDup (map snd t) -> In (a, b) t -> In (a', b) t -> a = a'.
Proof.
  induction t as [| [a0 b0] t IH]; simpl; intros ND H1 H2; [tauto |].
  inversion ND as [| ? ? Hnotin ND']; subst.
  destruct H1 as [E1 | H1], H2 as [E2 | H2].
  - congruence.
  - inversion E1; subst. exfalso. apply Hnotin.
    change b with (snd (a', b)). now apply in_map.
  - inversion E2; subst. exfalso. apply Hnotin.
    change b with (snd (a, b)). now apply in_map.
  - now apply IH.
Qed.

End RDDFacts.

Section JoinFacts.

Context {V W : Type}.

(** The elements of a join. *)
Lemma in_join (left : list (string * V)) (right : list (string * W)) k v w :
  In (k, (v, w)) (join left right) <-> In (k, v) left /\ In (k, w) right.
Proof.
  unfold join. rewrite in_flat_map. split.
  - intros [[k1 v1] [Hl Hm]]. simpl in Hm.
    apply in_map_iff in Hm. destruct Hm as [[k2 w2] [E Hf]].
    apply filter_In in Hf. destruct Hf as [Hr Hk]. simpl in *.
    apply String.eqb_eq in Hk. inversion E; subst. now split.
  - intros [Hl Hr]. exists (k, v). split; [assumption |]. simpl.
    apply in_map_iff. exists (k, w). split; [reflexivity |].
    apply filter_In. split; [assumption |]. simpl. apply String.eqb_refl.
Qed.

(** A key that occurs once on the right selects exactly its entry. *)
Lemma filter_key_single (right : list (string * W)) k w :
  NoDup (map fst right) -> In (k, w) right ->
  filter (fun kw => String.eqb (fst kw) k) right = [(k, w)].
Proof.
  induction right as [| [k0 w0] t IH]; simpl; intros ND Hin; [tauto |].
  inversion ND as [| ? ? Hnotin ND']; subst.
  destruct Hin as [E | Hin].
  - inversion E; subst. rewrite String.eqb_refl. f_equal.
    clear IH ND ND'. induction t as [| [k1 w1] t IHt]; simpl; [reflexivity |].
    destruct (String.eqb k1 k) eqn:Ek.
    + apply String.eqb_eq in Ek. subst. exfalso. apply Hnotin. now left.
    + apply IHt. intros H. apply Hnotin. now right.
  - destruct (String.eqb k0 k) eqn:Ek.
    + apply String.eqb_eq in Ek. subst. exfalso. apply Hnotin.
      change k with (fst (k, w)). now apply in_map.
    + now apply IH.
Qed.

(** Joining one left element with a table that knows its key. *)
Lemma join_cons (left : list (string * V)) (right : list (string * W)) k v w :
  NoDup (map fst right) -> In (k, w) right ->
  join ((k, v) :: left) right = (k, (v, w)) :: join left right.
Proof.
  intros ND Hin. unfold join. simpl.
  now rewrite (filter_key_single right k w ND Hin).
Qed.

End JoinFacts.

Section LookupFacts.

Lemma lookup_In (t : list (string * Z)) k :
  In k (map fst t) -> In (k, lookup t k) t.
Proof.
  unfold lookup. induction t as [| [k0 n0] t IH]; simpl; [tauto |].
  intros [E | Hin].
  - subst. rewrite String.eqb_refl. now left.
  - destruct (String.eqb k0 k) eqn:Ek.
    + apply String.eqb_eq in Ek. subst. now left.
    + right. now apply IH.
Qed.

(** Against a table with distinct keys and distinct values, comparing the
    values looked up amounts to comparing the keys. *)
Lemma lookup_eqb (t : list (string * Z)) k s n :
  NoDup (map fst t) -> NoDup (map snd t) ->
  In (s, n) t -> In k (map fst t) ->
  (lookup t k =? n) = String.eqb k s.
Proof.
  intros ND1 ND2 Hs Hk. apply lookup_In in Hk.
  destruct (String.eqb k s) eqn:E.
  - apply String.eqb_eq in E. subst. apply Z.eqb_eq.
    now apply (NoDup_fst_functional t s).
  - apply Z.eqb_neq. intros Heq. rewrite Heq in Hk.
    apply String.eqb_neq in E. apply E.
    now apply (NoDup_snd_injective t k s n).
Qed.

(** The join of keyed rows against a table that knows every key, in closed
    form: one output per row, in the order of the rows. *)
Lemma join_lookup {V : Type} (left : list (string * V)) (t : list (string * Z)) :
  NoDup (map fst t) ->
  (forall k v, In (k, v) left -> In k (map fst t)) ->
  join left t = map (fun kv => (fst kv, (snd kv, lookup t (fst kv)))) left.
Proof.
  intros ND. induction left as [| [k v] left IH]; intros Hkeys; [reflexivity |].
  rewrite (join_cons left t k v (lookup t k) ND).
  - simpl. f_equal. apply IH. intros k' v' H. apply (Hkeys k' v'). now right.
  - apply lookup_In. apply (Hkeys k v). now left.
Qed.

Lemma count_map {A B : Type} (g : A -> B) (p : B -> bool) (l : list A) :
  count p (map g l) = count (fun x => p (g x)) l.
Proof.
  unfold count. induction l as [| a l IH]; simpl; [reflexivity |].
  destruct (p (g a)); simpl; now rewrite IH.
Qed.

Lemma count_ext_in {A : Type} (p q : A -> bool) (l : list A) :
  (forall x, In x l -> p x = q x) -> count p l = count q l.
Proof.
  intros H. unfold count. now rewrite (filter_ext_in p q l H).
Qed.

Lemma count_filter {A : Type} (p q : A -> bool) (l : list A) :
  count p (filter q l) = count (fun x => q x && p x) l.
Proof.
  unfold count. induction l as [| a l IH]; simpl; [reflexivity |].
  destruct (q a); simpl; [destruct (p a); simpl |]; now rewrite IH.
Qed.

Lemma distinct_first_In (l : list string) x :
  In x (distinct_first l) <-> In x l.
Proof.
  induction l as [| a l IH]; simpl; [tauto |].
  rewrite filter_In, IH, negb_true_iff, String.eqb_neq.
  destruct (string_dec a x) as [E | N]; [tauto |].
  split; [tauto |]. intros [E | H]; [tauto |]. right. split; congruence.
Qed.

Lemma distinct_first_NoDup (l : list string) : NoDup (distinct_first l).
Proof.
  induction l as [| a l IH]; simpl; constructor.
  - rewrite filter_In, negb_true_iff, String.eqb_neq. tauto.
  - now apply NoDup_filter.
Qed.

End LookupFacts.

(** ** Identity of integers *)

Lemma same_int_small (x u : Z) :
  -5 <= u <= 256 -> same_int x u = (x =? u).
Proof.
  intros H. unfold same_int.
  replace (-5 <=? u) with true by (symmetry; apply Z.leb_le; lia).
  replace (u <=? 256) with true by (symmetry; apply Z.leb_le; lia).
  now rewrite !andb_true_r.
Qed.

Lemma same_int_large (x u : Z) :
  ~ (-5 <= u <= 256) -> same_int x u = false.
Proof.
  intros H. unfold same_int.
  destruct (-5 <=? u) eqn:E1; [| now rewrite andb_false_r].
  destruct (u <=? 256) eqn:E2; [| now rewrite andb_false_r].
  apply Z.leb_le in E1, E2. lia.
Qed.

Lemma same_int_eq (x u : Z) : same_int x u = true -> x = u.
Proof.
  unfold same_int. intros H.
  apply andb_true_iff in H. destruct H as [H _].
  apply andb_true_iff in H. destruct H as [H _]. now apply Z.eqb_eq.
Qed.

(** ** The preparation of the training data *)

Section Preparation.

Variable distinct : list string -> list string.
Hypothesis distinct_NoDup : forall l, NoDup (distinct l).
Hypothesis distinct_In : forall l x, In x (distinct l) <-> In x l.

Lemma table_fst (ratings : list row) :
  map fst (isbns_with_indices distinct ratings) = isbns distinct ratings.
Proof. apply zipWithIndex_fst. Qed.

Lemma table_NoDup_fst (ratings : list row) :
  NoDup (map fst (isbns_with_indices distinct ratings)).
Proof. rewrite table_fst. apply distinct_NoDup. Qed.

Lemma table_NoDup_snd (ratings : list row) :
  NoDup (map snd (isbns_with_indices distinct ratings)).
Proof. apply zipWithIndex_NoDup_snd. Qed.

(** The table knows the ISBN of every row. *)
Lemma table_knows (ratings : list row) u s r :
  In (u, s, r) ratings -> In s (map fst (isbns_with_indices distinct ratings)).
Proof.
  intros H. rewrite table_fst. unfold isbns. rewrite distinct_In.
  apply in_map_iff. now exists (u, s, r).
Qed.

(** Every ISBN of the table comes from a row. *)
Lemma table_from_rows (ratings : list row) s n :
  In (s, n) (isbns_with_indices distinct ratings) ->
  exists u r, In (u, s, r) ratings.
Proof.
  intros H. apply (in_map fst) in H. rewrite table_fst in H. simpl in H.
  unfold isbns in H. rewrite distinct_In in H.
  apply in_map_iff in H. destruct H as [[[u s'] r] [E H]]. simpl in E. subst.
  now exists u, r.
Qed.

Lemma table_length (ratings : list row) :
  length (isbns_with_indices distinct ratings) =
  length (nodup string_dec (map (fun x => snd (fst x)) ratings)).
Proof.
  unfold isbns_with_indices, zipWithIndex. rewrite zipWithIndex_from_length.
  apply Permutation_length, NoDup_Permutation.
  - apply distinct_NoDup.
  - apply NoDup_nodup.
  - intros x. unfold isbns. now rewrite distinct_In, nodup_In.
Qed.

(** The indices of the table are the integers below the number of
    distinct ISBNs. *)
Lemma table_indices (ratings : list row) n :
  In n (map snd (isbns_with_indices distinct ratings)) <->
  0 <= n < Z.of_nat (length (nodup string_dec (map (fun x => snd (fst x)) ratings))).
Proof.
  rewrite <- table_length. unfold isbns_with_indices.
  rewrite zipWithIndex_snd. unfold zipWithIndex.
  now rewrite zipWithIndex_from_length.
Qed.

(** [joined] in closed form. *)
Lemma joined_closed (ratings : list row) :
  joined distinct ratings =
  map (fun x => (snd (fst x),
                 ((fst (fst x), snd x),
                  lookup (isbns_with_indices distinct ratings) (snd (fst x)))))
      ratings.
Proof.
  unfold joined. rewrite join_lookup.
  - unfold reordered_ratings. rewrite map_map. reflexivity.
  - apply table_NoDup_fst.
  - intros k [u r] H. unfold reordered_ratings in H.
    apply in_map_iff in H. destruct H as [[[u' s'] r'] [E H]].
    simpl in E. inversion E; subst. now apply (table_knows ratings u k r).
Qed.

(** [ratings_ones] in closed form: one triple per row, in the order of the
    rows, with the user id as it is, the index of the ISBN and [1]. *)
Lemma ratings_ones_closed (ratings : list row) :
  ratings_ones distinct ratings =
  map (fun x => (fst (fst x),
                 lookup (isbns_with_indices distinct ratings) (snd (fst x)),
                 1))
      ratings.
Proof.
  unfold ratings_ones, ratings_int_nice. rewrite joined_closed, !map_map.
  reflexivity.
Qed.

(** C10.  The densification of the ISBNs is a consistent, injective
    numbering: the table gives one index per ISBN and one ISBN per index,
    the indices are exactly the integers from 0 to the number of distinct
    ISBNs minus one, the table holds exactly the ISBNs of the rows, every
    row is joined with the index of its ISBN and with nothing else, and
    [ratings_int_nice] carries that index. *)
Theorem isbn_densification (ratings : list row) :
  let table := isbns_with_indices distinct ratings in
  let n_isbns :=
    Z.of_nat (length (nodup string_dec (map (fun x => snd (fst x)) ratings))) in
  (forall s n m, In (s, n) table -> In (s, m) table -> n = m) /\
  (forall s t n, In (s, n) table -> In (t, n) table -> s = t) /\
  (forall n, In n (map snd table) <-> 0 <= n < n_isbns) /\
  (forall s, In s (map fst table) <-> exists u r, In (u, s, r) ratings) /\
  (forall s u r n, In (s, ((u, r), n)) (joined distinct ratings) <->
                   In (u, s, r) ratings /\ In (s, n) table) /\
  (forall u s r, In (u, s, r) ratings ->
                 exists n, In (s, ((u, r), n)) (joined distinct ratings)) /\
  (forall u n r, In (u, n, r) (ratings_int_nice distinct ratings) <->
                 exists s, In (u, s, r) ratings /\ In (s, n) table).
Proof.
  intros table n_isbns.
  assert (Hjoin : forall s u r n,
             In (s, ((u, r), n)) (joined distinct ratings) <->
             In (u, s, r) ratings /\ In (s, n) table).
  { intros s u r n. unfold joined. rewrite in_join.
    unfold reordered_ratings. rewrite in_map_iff. split.
    - intros [[[[u' s'] r'] [E H]] Ht]. simpl in E. inversion E; subst. now split.
    - intros [H Ht]. split; [| assumption]. now exists (u, s, r). }
  split; [| split; [| split; [| split; [| split; [| split]]]]].
  - intros s n m. apply NoDup_fst_functional, table_NoDup_fst.
  - intros s t n. apply NoDup_snd_injective, table_NoDup_snd.
  - intros n. apply table_indices.
  - intros s. split.
    + intros H. apply in_map_iff in H. destruct H as [[s' n] [E H]].
      simpl in E. subst. now apply (table_from_rows ratings s n).
    + intros [u [r H]]. now apply (table_knows ratings u s r).
  - exact Hjoin.
  - intros u s r H. pose proof (table_knows ratings u s r H) as Hk.
    apply lookup_In in Hk. exists (lookup table s). now apply Hjoin.
  - intros u n r. split.
    + intros H. unfold ratings_int_nice in H. apply in_map_iff in H.
      destruct H as [[s [[u' r'] n']] [E H]]. simpl in E. inversion E; subst.
      exists s. now apply Hjoin.
    + intros [s H]. unfold ratings_int_nice. apply in_map_iff.
      exists (s, ((u, r), n)). split; [reflexivity |]. now apply Hjoin.
Qed.

(** C3, as the notebook has it.  Nothing is aggregated: [ratings_ones] holds
    one triple per row, and for a user [u] and an ISBN [s] of index [n] the
    triple of [(u, n)] occurs in [ratings_ones] as many times as [ratings]
    has rows of [u] and [s].  So does [n] in the list of the books of [u]
    when [u] is one of the integers from -5 to 256, as the 8 of the
    notebook; for any other [u] the comparison by identity finds no row and
    the list is empty. *)
Theorem duplicates_are_kept (ratings : list row) :
  length (ratings_ones distinct ratings) = length ratings /\
  forall u s n, In (s, n) (isbns_with_indices distinct ratings) ->
    let rows_of_pair :=
      count (fun x => (fst (fst x) =? u) && String.eqb (snd (fst x)) s) ratings in
    count (fun t => (fst (fst t) =? u) && (snd (fst t) =? n))
          (ratings_ones distinct ratings) = rows_of_pair /\
    (-5 <= u <= 256 ->
     count (fun i => i =? n) (users_books distinct u ratings) = rows_of_pair) /\
    (~ (-5 <= u <= 256) -> users_books distinct u ratings = []).
Proof.
  split.
  - rewrite ratings_ones_closed. apply length_map.
  - intros u s n Hin rows_of_pair.
    assert (Hkey : forall x, In x ratings ->
               (lookup (isbns_with_indices distinct ratings) (snd (fst x)) =? n)
               = String.eqb (snd (fst x)) s).
    { intros [[u' s'] r'] Hx. simpl.
      apply lookup_eqb; try assumption.
      - apply table_NoDup_fst.
      - apply table_NoDup_snd.
      - now apply (table_knows ratings u' s' r'). }
    split; [| split].
    + rewrite ratings_ones_closed, count_map. apply count_ext_in.
      intros x Hx. simpl. now rewrite Hkey.
    + intros Hu. unfold users_books. rewrite count_map, count_filter.
      rewrite ratings_ones_closed, count_map. apply count_ext_in.
      intros x Hx. simpl. now rewrite Hkey, same_int_small.
    + intros Hu. unfold users_books.
      replace (filter _ (ratings_ones distinct ratings)) with (@nil triple);
        [reflexivity |].
      symmetry. induction (ratings_ones distinct ratings) as [| t l IH];
        [reflexivity |].
      simpl. now rewrite same_int_large.
Qed.

(** C9, as the notebook has it.  The preparation checks no bound and has no
    error of its own: it fails exactly when a line does not parse, with the
    exception of the parsing, and otherwise returns one triple per row.
    Every item index it delivers lies between 0 and the number of distinct
    ISBNs, and every user id is delivered as it was read, whatever its
    value. *)
Theorem prepared_checks_no_bound (BX : list string) :
  (forall e, ratings (implicit_csv BX) = inl e -> prepared distinct BX = inl e) /\
  (forall rows, ratings (implicit_csv BX) = inr rows ->
   exists triples,
     prepared distinct BX = inr triples /\
     length triples = length rows /\
     (forall u s r, In (u, s, r) rows -> exists n, In (u, n, 1) triples) /\
     (forall u n c, In (u, n, c) triples ->
        (exists s r, In (u, s, r) rows) /\
        0 <= n < Z.of_nat (length (nodup string_dec (map (fun x => snd (fst x)) rows))))).
Proof.
  split.
  - intros e Hparse. unfold prepared. now rewrite Hparse.
  - intros rows Hparse. exists (ratings_ones distinct rows).
    unfold prepared. rewrite Hparse. simpl.
    split; [reflexivity |]. split; [| split].
    + rewrite ratings_ones_closed. apply length_map.
    + intros u s r H.
      exists (lookup (isbns_with_indices distinct rows) s).
      rewrite ratings_ones_closed. apply in_map_iff. now exists (u, s, r).
    + intros u n c H. rewrite ratings_ones_closed in H. apply in_map_iff in H.
      destruct H as [[[u' s'] r'] [E H]]. simpl in E. inversion E; subst.
      split; [now exists s', r' |].
      pose proof (table_knows rows u s' r' H) as Hk. apply lookup_In in Hk.
      apply (in_map snd) in Hk. simpl in Hk. now apply table_indices.
Qed.

End Preparation.

(** ** [sorted] and [takeOrdered] *)

Section SortFacts.

Context {A : Type} (key : A -> Q).

Lemma insert_by_perm (x : A) (l : list A) :
  Permutation (insert_by key x l) (x :: l).
Proof.
  induction l as [| y l IH]; simpl; [reflexivity |].
  destruct (Qle_bool (key x) (key y)); [reflexivity |].
  rewrite IH. apply perm_swap.
Qed.

Lemma sorted_perm (l : list A) : Permutation (sorted key l) l.
Proof.
  induction l as [| x l IH]; simpl; [reflexivity |].
  rewrite insert_by_perm. now constructor.
Qed.

Lemma Qle_bool_false (p q : Q) : Qle_bool p q = false -> (q <= p)%Q.
Proof.
  intros H. apply Qlt_le_weak, Qnot_le_lt. intros Hle.
  apply Qle_bool_iff in Hle. congruence.
Qed.

Lemma insert_by_sorted (x : A) (l : list A) :
  StronglySorted (key_le key) l -> StronglySorted (key_le key) (insert_by key x l).
Proof.
  induction l as [| y l IH]; simpl; intros H.
  - repeat constructor.
  - inversion H as [| ? ? Hl Hy]; subst.
    destruct (Qle_bool (key x) (key y)) eqn:E.
    + apply Qle_bool_iff in E. constructor; [assumption |].
      constructor; [assumption |].
      eapply Forall_impl; [| exact Hy]. intros z Hz.
      unfold key_le in *. now apply Qle_trans with (key y).
    + apply Qle_bool_false in E. constructor; [now apply IH |].
      apply Forall_forall. intros z Hz.
      apply (Permutation_in _ (insert_by_perm x l)) in Hz.
      destruct Hz as [<- | Hz]; [assumption |].
      now apply (proj1 (Forall_forall _ _) Hy).
Qed.

Lemma sorted_sorted (l : list A) : StronglySorted (key_le key) (sorted key l).
Proof.
  induction l as [| x l IH]; simpl; [constructor |].
  now apply insert_by_sorted.
Qed.

(** Insertion does not move an element across another with the same key. *)
Lemma insert_by_stable (c : Q) (x : A) (l : list A) :
  filter (fun z => Qeq_bool (key z) c) (insert_by key x l) =
  filter (fun z => Qeq_bool (key z) c) (x :: l).
Proof.
  induction l as [| y l IH]; [reflexivity |].
  simpl insert_by. destruct (Qle_bool (key x) (key y)) eqn:E; [reflexivity |].
  simpl filter in *. rewrite IH.
  destruct (Qeq_bool (key x) c) eqn:Ex, (Qeq_bool (key y) c) eqn:Ey;
    try reflexivity.
  apply Qeq_bool_iff in Ex, Ey.
  assert (Hle : Qle_bool (key x) (key y) = true).
  { apply Qle_bool_iff. rewrite Ex, Ey. apply Qle_refl. }
  congruence.
Qed.

Lemma sorted_stable (c : Q) (l : list A) :
  filter (fun z => Qeq_bool (key z) c) (sorted key l) =
  filter (fun z => Qeq_bool (key z) c) l.
Proof.
  induction l as [| x l IH]; [reflexivity |].
  simpl sorted. rewrite insert_by_stable. simpl. now rewrite IH.
Qed.

End SortFacts.

Lemma StronglySorted_app_inv {A : Type} (R : A -> A -> Prop) (l1 l2 : list A) :
  StronglySorted R (l1 ++ l2) ->
  StronglySorted R l1 /\ forall a b, In a l1 -> In b l2 -> R a b.
Proof.
  induction l1 as [| x l1 IH]; simpl; intros H.
  - split; [constructor | tauto].
  - inversion H as [| ? ? Hl Hx]; subst. destruct (IH Hl) as [S1 S2].
    apply Forall_app in Hx. destruct Hx as [Hx1 Hx2]. split.
    + now constructor.
    + intros a b [<- | Ha] Hb; [| now apply S2].
      now apply (proj1 (Forall_forall _ _) Hx2).
Qed.

Lemma Qeq_bool_opp (x y : Q) : Qeq_bool (- x) (- y) = Qeq_bool x y.
Proof.
  apply eq_true_iff_eq. rewrite !Qeq_bool_iff.
  unfold Qeq, Qopp. simpl. lia.
Qed.

(** ** The recommendation query *)

Section Query.

Variable distinct : list string -> list string.
Variable Model : Type.
Variable trainImplicit : list triple -> forall (rank iterations : nat) (alpha : Q), Model.
Variable predictAll : Model -> list (Z * Z) -> list Rating.

(** The library's contract used here: [predictAll] answers only about the
    pairs it is asked. *)
Hypothesis predictAll_asked : forall m q r,
  In r (predictAll m q) -> In (user r, product r) q.

Lemma not_in_spec (x : Z) (l : list Z) : not_in x l = true <-> ~ In x l.
Proof.
  unfold not_in. rewrite negb_true_iff, <- not_true_iff_false, existsb_exists.
  split; intros H Hin; apply H.
  - exists x. split; [assumption | apply Z.eqb_refl].
  - destruct Hin as [y [Hy E]]. apply Z.eqb_eq in E. now subst.
Qed.

(** Every pair of [unseen] is about a book that is not among the books of
    the user. *)
Lemma unseen_excluded (u : Z) (ratings : list row) v i :
  In (v, i) (unseen distinct u ratings) ->
  v = u /\ ~ In i (books_for_them distinct u ratings).
Proof.
  unfold unseen. intros H. apply in_map_iff in H.
  destruct H as [x [E H]]. inversion E; subst.
  apply filter_In in H. destruct H as [_ H]. now apply not_in_spec in H.
Qed.

(** C5, as the notebook has it.  The answer of [takeOrdered] on the
    predictions for the unseen books holds no book of the user, its scores
    never increase, it has [num] elements or all the predictions when they
    are fewer, the predictions left out score no more than those returned,
    and predictions with equal scores come in the order in which
    [predictions] holds them. *)
Theorem top_is_a_stable_selection (u : Z) (num : nat) (ratings : list row) :
  let preds := predictions distinct Model trainImplicit predictAll u ratings in
  let result := top num preds in
  (forall r, In r result -> ~ In (product r) (books_for_them distinct u ratings)) /\
  StronglySorted score_ge result /\
  length result = Nat.min num (length preds) /\
  exists rest,
    Permutation (result ++ rest) preds /\
    (forall a b, In a result -> In b rest -> score_ge a b) /\
    (forall s, filter (has_score s) (result ++ rest) = filter (has_score s) preds).
Proof.
  intros preds result.
  set (key := fun x : Rating => (- rating x)%Q).
  assert (Hsplit : result ++ skipn num (sorted key preds) = sorted key preds).
  { apply firstn_skipn. }
  assert (Hsorted : StronglySorted score_ge (result ++ skipn num (sorted key preds))).
  { rewrite Hsplit.
    eapply StronglySorted_ind with (R := key_le key)
      (P := StronglySorted score_ge); [constructor | | apply sorted_sorted].
    intros a l _ IH Ha. constructor; [assumption |].
    eapply Forall_impl; [| exact Ha]. intros b Hb.
    unfold score_ge, key_le, key in *.
    now apply Qopp_le_compat in Hb; rewrite !Qopp_involutive in Hb. }
  destruct (StronglySorted_app_inv score_ge _ _ Hsorted) as [S1 S2].
  split; [| split; [| split]].
  - intros r Hr.
    assert (Hp : In r preds).
    { apply (Permutation_in _ (sorted_perm key preds)).
      rewrite <- Hsplit. apply in_or_app. now left. }
    apply predictAll_asked in Hp.
    now apply (unseen_excluded u ratings (user r) (product r)).
  - exact S1.
  - unfold result, top, takeOrdered. rewrite length_firstn.
    now rewrite (Permutation_length (sorted_perm _ preds)).
  - exists (skipn num (sorted key preds)). split; [| split].
    + rewrite Hsplit. apply sorted_perm.
    + exact S2.
    + intros s. rewrite Hsplit. unfold has_score.
      rewrite (filter_ext _ (fun z => Qeq_bool (key z) (- s))),
              (filter_ext (fun r => Qeq_bool (rating r) s)
                          (fun z => Qeq_bool (key z) (- s))).
      * apply sorted_stable.
      * intros z. unfold key. now rewrite Qeq_bool_opp.
      * intros z. unfold key. now rewrite Qeq_bool_opp.
Qed.

End Query.

(** ** Concrete runs *)

Lemma predict_index_asked (m : unit) (q : list (Z * Z)) (r : Rating) :
  In r (predict_index m q) -> In (user r, product r) q.
Proof.
  unfold predict_index. intros H. apply in_map_iff in H.
  destruct H as [[v i] [E H]]. now subst.
Qed.

(** The densification on three rows and two books. *)
Lemma isbn_densification_witness :
  (forall l, NoDup (distinct_first l)) /\
  (forall l x, In x (distinct_first l) <-> In x l) /\
  let table := isbns_with_indices distinct_first three_rows in
  let n_isbns :=
    Z.of_nat (length (nodup string_dec (map (fun x => snd (fst x)) three_rows))) in
  (forall s n m, In (s, n) table -> In (s, m) table -> n = m) /\
  (forall s t n, In (s, n) table -> In (t, n) table -> s = t) /\
  (forall n, In n (map snd table) <-> 0 <= n < n_isbns) /\
  (forall s, In s (map fst table) <-> exists u r, In (u, s, r) three_rows) /\
  (forall s u r n, In (s, ((u, r), n)) (joined distinct_first three_rows) <->
                   In (u, s, r) three_rows /\ In (s, n) table) /\
  (forall u s r, In (u, s, r) three_rows ->
                 exists n, In (s, ((u, r), n)) (joined distinct_first three_rows)) /\
  (forall u n r, In (u, n, r) (ratings_int_nice distinct_first three_rows) <->
                 exists s, In (u, s, r) three_rows /\ In (s, n) table).
Proof.
  split; [exact distinct_first_NoDup |].
  split; [exact distinct_first_In |].
  exact (isbn_densification distinct_first distinct_first_NoDup
           distinct_first_In three_rows).
Defined.

(** The multiplicities on the input in which user 8 has one book twice. *)
Lemma duplicates_are_kept_witness :
  (forall l, NoDup (distinct_first l)) /\
  (forall l x, In x (distinct_first l) <-> In x l) /\
  length (ratings_ones distinct_first twice) = length twice /\
  forall u s n, In (s, n) (isbns_with_indices distinct_first twice) ->
    let rows_of_pair :=
      count (fun x => (fst (fst x) =? u) && String.eqb (snd (fst x)) s) twice in
    count (fun t => (fst (fst t) =? u) && (snd (fst t) =? n))
          (ratings_ones distinct_first twice) = rows_of_pair /\
    (-5 <= u <= 256 ->
     count (fun i => i =? n) (users_books distinct_first u twice) = rows_of_pair) /\
    (~ (-5 <= u <= 256) -> users_books distinct_first u twice = []).
Proof.
  split; [exact distinct_first_NoDup |].
  split; [exact distinct_first_In |].
  exact (duplicates_are_kept distinct_first distinct_first_NoDup
           distinct_first_In twice).
Defined.

(** C3, counterexample.  User 8 has the book ["A"] on two rows: the trainer
    is handed the triple [(8, 0, 1)] twice, and the list of the books of
    user 8 holds the index 0 twice. *)
Lemma duplicates_reach_the_trainer :
  ratings_ones distinct_first twice = [(8, 0, 1); (8, 0, 1)] /\
  books_for_them distinct_first 8 twice = [0; 0] /\
  ~ NoDup (books_for_them distinct_first 8 twice).
Proof.
  split; [reflexivity |]. split; [reflexivity |].
  intros H. change (NoDup [0; 0]) in H.
  inversion H as [| ? ? Hnotin _]. apply Hnotin. now left.
Qed.

(** The preparation of the two-line file. *)
Lemma prepared_checks_no_bound_witness :
  (forall l, NoDup (distinct_first l)) /\
  (forall l x, In x (distinct_first l) <-> In x l) /\
  ratings (implicit_csv two_lines) =
    inr [(276725, "034545104X"%string, 0); (276727, "0446520802"%string, 0)] /\
  (forall e, ratings (implicit_csv two_lines) = inl e ->
             prepared distinct_first two_lines = inl e) /\
  (forall rows, ratings (implicit_csv two_lines) = inr rows ->
   exists triples,
     prepared distinct_first two_lines = inr triples /\
     length triples = length rows /\
     (forall u s r, In (u, s, r) rows -> exists n, In (u, n, 1) triples) /\
     (forall u n c, In (u, n, c) triples ->
        (exists s r, In (u, s, r) rows) /\
        0 <= n < Z.of_nat (length (nodup string_dec
                                     (map (fun x : row => snd (fst x)) rows))))).
Proof.
  split; [exact distinct_first_NoDup |].
  split; [exact distinct_first_In |].
  split; [reflexivity |].
  exact (prepared_checks_no_bound distinct_first distinct_first_NoDup
           distinct_first_In two_lines).
Defined.

(** C9, counterexample.  The file has two users and two books, so the dense
    ranges would be [0, 2); the user ids 276725 and 276727 lie outside, and
    the preparation returns the triples with these ids, without an error. *)
Lemma user_id_out_of_range_is_accepted :
  let N_u := 2 in
  prepared distinct_first two_lines = inr [(276725, 0, 1); (276727, 1, 1)] /\
  N_u <= 276725.
Proof. split; [reflexivity | lia]. Qed.

Lemma predict_parity_asked (m : unit) (q : list (Z * Z)) (r : Rating) :
  In r (predict_parity m q) -> In (user r, product r) q.
Proof.
  unfold predict_parity. intros H. apply in_map_iff in H.
  destruct H as [[v i] [E H]]. now subst.
Qed.

(** The query of user 8 on five books, with a stand-in model whose scores
    tie: of the four predictions, for the items 1 to 4 with the scores 1,
    0, 1, 0, the best three are asked, which orders them, keeps the ties in
    their order and leaves one prediction out. *)
Lemma top_is_a_stable_selection_witness :
  (forall m q r, In r (predict_parity m q) -> In (user r, product r) q) /\
  predictions distinct_first unit no_training predict_parity 8 five_rows =
    [mkRating 8 1 1; mkRating 8 2 0; mkRating 8 3 1; mkRating 8 4 0] /\
  top 3 (predictions distinct_first unit no_training predict_parity 8 five_rows) =
    [mkRating 8 1 1; mkRating 8 3 1; mkRating 8 2 0] /\
  let preds := predictions distinct_first unit no_training predict_parity 8 five_rows in
  let result := top 3 preds in
  (forall r, In r result -> ~ In (product r) (books_for_them distinct_first 8 five_rows)) /\
  StronglySorted score_ge result /\
  length result = Nat.min 3 (length preds) /\
  exists rest,
    Permutation (result ++ rest) preds /\
    (forall a b, In a result -> In b rest -> score_ge a b) /\
    (forall s, filter (has_score s) (result ++ rest) = filter (has_score s) preds).
Proof.
  split; [exact predict_parity_asked |].
  split; [reflexivity |]. split; [reflexivity |].
  exact (top_is_a_stable_selection distinct_first unit no_training predict_parity
           predict_parity_asked 8 3%nat five_rows).
Defined.

(** C5, counterexample.  Two predictions with the score 1, item 5 before
    item 2: [takeOrdered] returns them in this order, the larger item index
    first. *)
Lemma equal_scores_keep_their_order :
  top 20 tied = [mkRating 8 5 1; mkRating 8 2 1] /\
  ~ ties_ascending (top 20 tied).
Proof.
  split; [reflexivity |]. intros H.
  assert (Hlt : 5 < 2).
  { apply (H [] (mkRating 8 5 1) [] (mkRating 8 2 1) []); reflexivity. }
  lia.
Qed.

(** ** The text stage in detail *)

Section TextFacts.

Lemma remove_char_app (c : ascii) (a b : string) :
  remove_char c (a ++ b)%string = (remove_char c a ++ remove_char c b)%string.
Proof.
  induction a as [| x a IH]; simpl; [reflexivity |].
  destruct (Ascii.eqb x c); simpl; now rewrite IH.
Qed.

Lemma remove_char_absent (c : ascii) (s : string) :
  occurs c s = false -> remove_char c s = s.
Proof.
  induction s as [| x s IH]; simpl; [reflexivity |].
  destruct (Ascii.eqb x c); simpl; [discriminate |].
  intros H. now rewrite IH.
Qed.

Lemma occurs_remove_char (c : ascii) (s : string) :
  occurs c (remove_char c s) = false.
Proof.
  induction s as [| x s IH]; simpl; [reflexivity |].
  destruct (Ascii.eqb x c) eqn:E; simpl; [assumption |]. now rewrite E.
Qed.

Lemma occurs_remove_other (c d : ascii) (s : string) :
  occurs d s = false -> occurs d (remove_char c s) = false.
Proof.
  induction s as [| x s IH]; simpl; [reflexivity |].
  intros H. apply orb_false_iff in H. destruct H as [Hx Hs].
  destruct (Ascii.eqb x c); simpl; [now apply IH |].
  rewrite Hx. now apply IH.
Qed.

Lemma split_nonempty (sep : ascii) (s : string) : split sep s <> [].
Proof.
  destruct s as [| x s]; simpl; [discriminate |].
  destruct (Ascii.eqb x sep); [discriminate |].
  destruct (split sep s); discriminate.
Qed.

(** A text without the separator is one field. *)
Lemma split_absent (sep : ascii) (s : string) :
  occurs sep s = false -> split sep s = [s].
Proof.
  induction s as [| x s IH]; simpl; [reflexivity |].
  destruct (Ascii.eqb x sep); simpl; [discriminate |].
  intros H. now rewrite IH.
Qed.

(** Splitting distributes over a separator. *)
Lemma split_app (sep : ascii) (a b : string) :
  split sep (a ++ String sep b)%string = split sep a ++ split sep b.
Proof.
  induction a as [| x a IH]; simpl.
  - now rewrite Ascii.eqb_refl.
  - destruct (Ascii.eqb x sep); simpl; [now rewrite IH |].
    rewrite IH. destruct (split sep a) as [| w ws] eqn:E; [| reflexivity].
    now apply split_nonempty in E.
Qed.

(** One field more than there are separators. *)
Lemma split_length (sep : ascii) (s : string) :
  length (split sep s) = S (count_char sep s).
Proof.
  induction s as [| x s IH]; simpl; [reflexivity |].
  destruct (Ascii.eqb x sep); simpl; [now rewrite IH |].
  destruct (split sep s) as [| w ws] eqn:E; simpl in *; [discriminate | lia].
Qed.

(** No field holds the separator, and a field holds no character that the
    text does not hold. *)
Lemma split_fields (sep : ascii) (s : string) :
  forall f, In f (split sep s) ->
    occurs sep f = false /\ forall c, occurs c s = false -> occurs c f = false.
Proof.
  induction s as [| x s IH]; simpl.
  - intros f [<- | []]. now split.
  - destruct (Ascii.eqb x sep) eqn:E.
    + intros f [<- | Hf]; [now split |].
      destruct (IH f Hf) as [H1 H2]. split; [assumption |].
      intros c Hc. apply orb_false_iff in Hc. now apply H2.
    + destruct (split sep s) as [| w ws] eqn:Es.
      * intros f [<- | []]. simpl. rewrite E. split; [reflexivity |].
        intros c Hc. apply orb_false_iff in Hc. destruct Hc as [Hc _].
        now rewrite Hc.
      * intros f [<- | Hf].
        -- destruct (IH w (or_introl eq_refl)) as [H1 H2]. simpl. rewrite E.
           split; [assumption |]. intros c Hc.
           apply orb_false_iff in Hc. destruct Hc as [Hc Hs].
           rewrite Hc. now apply H2.
        -- destruct (IH f (or_intror Hf)) as [H1 H2]. split; [assumption |].
           intros c Hc. apply orb_false_iff in Hc. now apply H2.
Qed.

End TextFacts.

(** ** [int] on the decimal writing of an integer *)

Section DecimalFacts.

Import DecimalString.

Lemma digits_last (a : ascii) (k acc : Z) :
  digit_of a = Some k -> digits acc (String a EmptyString) = Some (10 * acc + k).
Proof. intros H. simpl. now rewrite H. Qed.

Lemma digits_step (a : ascii) (k acc : Z) (s : string) :
  digit_of a = Some k -> s <> EmptyString ->
  digits acc (String a s) = digits (10 * acc + k) s.
Proof.
  intros H Hs. simpl. rewrite H. destruct s; [congruence | reflexivity].
Qed.

Lemma string_of_uint_nonempty (d : Decimal.uint) :
  d <> Decimal.Nil -> NilEmpty.string_of_uint d <> EmptyString.
Proof. destruct d; simpl; congruence. Qed.

Lemma uint_nil_dec (d : Decimal.uint) : {d = Decimal.Nil} + {d <> Decimal.Nil}.
Proof. destruct d; (now left) || (right; discriminate). Qed.

Lemma digits_pos (d : Decimal.uint) : forall acc,
  d <> Decimal.Nil ->
  digits (Zpos acc) (NilEmpty.string_of_uint d) =
  Some (Zpos (Pos.of_uint_acc d acc)).
Proof.
  induction d as [| d IH | d IH | d IH | d IH | d IH | d IH | d IH | d IH
                  | d IH | d IH]; intros acc Hnil; [congruence | ..];
    (cbn [NilEmpty.string_of_uint Pos.of_uint_acc Pos.of_uint];
     destruct (uint_nil_dec d) as [-> | Hd];
     [ cbn [NilEmpty.string_of_uint Pos.of_uint_acc Pos.of_uint];
       erewrite digits_last by reflexivity
     | erewrite digits_step;
       [| reflexivity | exact (string_of_uint_nonempty d Hd)] ];
     match goal with
     | |- context [Z.of_nat ?n] =>
         let v := eval vm_compute in (Z.of_nat n) in
         change (Z.of_nat n) with v
     end;
     [ f_equal; lia | rewrite <- (IH _ Hd); f_equal; lia ]).
Qed.

Lemma digits_zero (d : Decimal.uint) :
  d <> Decimal.Nil ->
  digits 0 (NilEmpty.string_of_uint d) = Some (Z.of_N (Pos.of_uint d)).
Proof.
  induction d as [| d IH | d IH | d IH | d IH | d IH | d IH | d IH | d IH
                  | d IH | d IH]; intros Hnil; [congruence | ..];
    (cbn [NilEmpty.string_of_uint Pos.of_uint_acc Pos.of_uint];
     destruct (uint_nil_dec d) as [-> | Hd];
     [ cbn [NilEmpty.string_of_uint Pos.of_uint_acc Pos.of_uint];
       erewrite digits_last by reflexivity
     | erewrite digits_step;
       [| reflexivity | exact (string_of_uint_nonempty d Hd)] ];
     match goal with
     | |- context [Z.of_nat ?n] =>
         let v := eval vm_compute in (Z.of_nat n) in
         change (Z.of_nat n) with v
     end;
     [ reflexivity | first [ exact (IH Hd) | exact (digits_pos d _ Hd) ] ]).
Qed.

(** The writing of a natural number holds digits only. *)
Lemma occurs_string_of_uint (c : ascii) (d : Decimal.uint) :
  digit_of c = None -> occurs c (NilEmpty.string_of_uint d) = false.
Proof.
  intros Hc.
  induction d as [| d IH | d IH | d IH | d IH | d IH | d IH | d IH | d IH
                  | d IH | d IH]; cbn [NilEmpty.string_of_uint occurs];
    [reflexivity | ..];
    rewrite IH, orb_false_r; apply Ascii.eqb_neq; intros <-; discriminate.
Qed.

Lemma rstrip_string_of_uint (d : Decimal.uint) :
  rstrip (NilEmpty.string_of_uint d) = NilEmpty.string_of_uint d.
Proof.
  induction d as [| d IH | d IH | d IH | d IH | d IH | d IH | d IH | d IH
                  | d IH | d IH]; [reflexivity | ..];
    simpl NilEmpty.string_of_uint; simpl rstrip; rewrite IH;
    now destruct (NilEmpty.string_of_uint d).
Qed.

Lemma int_string_of_uint (d : Decimal.uint) :
  d <> Decimal.Nil ->
  int (NilEmpty.string_of_uint d) = inr (Z.of_N (Pos.of_uint d)).
Proof.
  intros Hd. pose proof (digits_zero d Hd) as Hz.
  pose proof (rstrip_string_of_uint d) as Hr.
  unfold int.
  destruct d; try congruence; simpl NilEmpty.string_of_uint in *;
    simpl lstrip; rewrite Hr; now rewrite Hz.
Qed.

Lemma int_decimal (z : Z) : int (decimal z) = inr z.
Proof.
  unfold decimal. destruct z as [| p | p]; [reflexivity | |].
  - simpl. pose proof (DecimalPos.Unsigned.to_uint_nonnil p) as Hd.
    replace (NilZero.string_of_uint (Pos.to_uint p))
      with (NilEmpty.string_of_uint (Pos.to_uint p))
      by (destruct (Pos.to_uint p); [congruence | reflexivity ..]).
    rewrite (int_string_of_uint _ Hd), DecimalPos.Unsigned.of_to. reflexivity.
  - simpl. pose proof (DecimalPos.Unsigned.to_uint_nonnil p) as Hd.
    replace (NilZero.string_of_uint (Pos.to_uint p))
      with (NilEmpty.string_of_uint (Pos.to_uint p))
      by (destruct (Pos.to_uint p); [congruence | reflexivity ..]).
    unfold int. simpl lstrip. simpl rstrip.
    rewrite rstrip_string_of_uint.
    destruct (NilEmpty.string_of_uint (Pos.to_uint p)) eqn:E.
    + now apply string_of_uint_nonempty in E.
    + rewrite <- E, (digits_zero _ Hd), DecimalPos.Unsigned.of_to. reflexivity.
Qed.

Lemma occurs_NilZero (c : ascii) (d : Decimal.uint) :
  digit_of c = None -> occurs c (NilZero.string_of_uint d) = false.
Proof.
  intros Hc. destruct d;
    [ change (NilZero.string_of_uint Decimal.Nil)
        with (NilEmpty.string_of_uint (Decimal.D0 Decimal.Nil)) | ..];
    now apply occurs_string_of_uint.
Qed.

Lemma plain_decimal (z : Z) : plain (decimal z).
Proof.
  assert (H : forall c, digit_of c = None -> Ascii.eqb "-"%char c = false ->
                        occurs c (decimal z) = false).
  { intros c Hc Hm. unfold decimal, NilZero.string_of_int.
    destruct (Z.to_int z) as [d | d]; cbn [occurs];
      [| rewrite Hm, orb_false_l]; now apply occurs_NilZero. }
  split; now apply H.
Qed.

End DecimalFacts.

(** ** The parsing of a line *)

Section Parsing.

Lemma append_empty_r (s : string) : (s ++ EmptyString)%string = s.
Proof. induction s as [| a s IH]; simpl; [reflexivity | now rewrite IH]. Qed.

Lemma remove_quoted (a : string) :
  occurs dquote a = false -> remove_char dquote (quoted a) = a.
Proof.
  intros H. unfold quoted.
  change (remove_char dquote (String dquote (a ++ String dquote EmptyString)))
    with (remove_char dquote (a ++ String dquote EmptyString)%string).
  rewrite remove_char_app, (remove_char_absent _ _ H).
  apply append_empty_r.
Qed.

(** The fields of a line written with [csv_line]. *)
Lemma fields_csv_line (a s c : string) :
  plain a -> plain s -> plain c ->
  split ";"%char (remove_char dquote (csv_line a s c)) = [a; s; c].
Proof.
  intros [Ha1 Ha2] [Hs1 Hs2] [Hc1 Hc2]. unfold csv_line.
  rewrite !remove_char_app.
  rewrite (remove_quoted a Ha1), (remove_quoted s Hs1), (remove_quoted c Hc1).
  change (remove_char dquote ";") with ";"%string.
  change (a ++ ";" ++ s ++ ";" ++ c)%string
    with (a ++ String ";"%char (s ++ String ";"%char c))%string.
  rewrite !split_app.
  now rewrite (split_absent _ a Ha2), (split_absent _ s Hs2), (split_absent _ c Hc2).
Qed.

Lemma parse_fields_inv (x : list string) u s r :
  parse_fields x = inr (u, s, r) ->
  exists f0 f2 rest,
    x = f0 :: s :: f2 :: rest /\ int f0 = inr u /\ all_ascii s = true /\
    int f2 = inr r.
Proof.
  unfold parse_fields, item, str, bind, ret.
  destruct x as [| f0 [| f1 [| f2 rest]]]; cbn [nth_error];
    try discriminate;
    destruct (int f0) as [e0 | u0] eqn:E0; try discriminate;
    destruct (all_ascii f1) eqn:E1; try discriminate.
  destruct (int f2) as [e2 | r2] eqn:E2; try discriminate.
  intros [= <- <- <-]. now exists f0, f2, rest.
Qed.

Lemma count_char_remove (c d : ascii) (s : string) :
  Ascii.eqb c d = false ->
  count_char d (remove_char c s) = count_char d s.
Proof.
  intros H. induction s as [| x s IH]; simpl; [reflexivity |].
  destruct (Ascii.eqb x c) eqn:E; simpl; rewrite IH; [| reflexivity].
  apply Ascii.eqb_eq in E. subst. now rewrite H.
Qed.

Lemma parse_line_decimal (u r : Z) (s : string) :
  plain s -> all_ascii s = true ->
  parse_line (csv_line (decimal u) s (decimal r)) = inr (u, s, r).
Proof.
  intros Hs Ha. unfold parse_line.
  rewrite fields_csv_line by (assumption || apply plain_decimal).
  unfold parse_fields, item, str, bind, ret. cbn [nth_error].
  now rewrite !int_decimal, Ha.
Qed.

(** X1.  Every row written in the format of the file is read back as it
    is: the line of the quoted decimal writings of [u] and [r] around a
    quoted ASCII text [s] free of quotes and semicolons parses to
    [(u, s, r)]. *)
Theorem parse_line_reads_back (u r : Z) (s : string) :
  plain s -> all_ascii s = true ->
  parse_line (csv_line (decimal u) s (decimal r)) = inr (u, s, r).
Proof. apply parse_line_decimal. Qed.

(** X2.  The ISBN of a parsed row is an ASCII text that holds no double
    quote and no semicolon, whatever the line. *)
Theorem parsed_isbn_is_plain (line : string) (u r : Z) (s : string) :
  parse_line line = inr (u, s, r) -> plain s /\ all_ascii s = true.
Proof.
  unfold parse_line. intros H. apply parse_fields_inv in H.
  destruct H as [f0 [f2 [rest [Hx [_ [Ha _]]]]]].
  split; [| assumption].
  destruct (split_fields ";"%char (remove_char dquote line) s) as [H1 H2].
  { rewrite Hx. right. now left. }
  split; [| assumption]. apply H2, occurs_remove_char.
Qed.

(** X3.  A line that parses holds at least two semicolons; a line with no
    semicolon at all fails with [IndexError] when its text is an integer
    and with [ValueError] otherwise. *)
Theorem too_few_columns (line : string) :
  (forall row, parse_line line = inr row -> (2 <= count_char ";" line)%nat) /\
  (occurs ";"%char line = false ->
   parse_line line =
   match int (remove_char dquote line) with
   | inr _ => inl IndexError
   | inl e => inl e
   end).
Proof.
  split.
  - intros [[u s] r] H. unfold parse_line in H. apply parse_fields_inv in H.
    destruct H as [f0 [f2 [rest [Hx _]]]].
    apply (f_equal (@length string)) in Hx.
    rewrite split_length, count_char_remove in Hx by reflexivity.
    simpl in Hx. lia.
  - intros H. unfold parse_line.
    rewrite split_absent by now apply occurs_remove_other.
    unfold parse_fields, item, bind. cbn [nth_error].
    now destruct (int (remove_char dquote line)).
Qed.

(** X4.  Columns after the third are ignored: a line that parses still
    parses, to the same row, when a semicolon and any text are appended. *)
Theorem extra_columns_ignored (line t : string) (x : row) :
  parse_line line = inr x ->
  parse_line (line ++ String ";"%char t) = inr x.
Proof.
  destruct x as [[u s] r]. unfold parse_line. intros H.
  rewrite remove_char_app.
  change (remove_char dquote (String ";"%char t))
    with (String ";"%char (remove_char dquote t)).
  rewrite split_app. apply parse_fields_inv in H.
  destruct H as [f0 [f2 [rest [Hx [H0 [Ha H2]]]]]]. rewrite Hx.
  unfold parse_fields, item, str, bind, ret. cbn [nth_error app].
  now rewrite H0, Ha, H2.
Qed.

Lemma ratings_cons (l : string) (lines : list string) :
  ratings (l :: lines) =
  match parse_line l, ratings lines with
  | inr b, inr bs => inr (b :: bs)
  | inr _, inl es => inl es
  | inl e, inr _ => inl [e]
  | inl e, inl es => inl (e :: es)
  end.
Proof. reflexivity. Qed.

Lemma ratings_succeeds (lines : list string) : forall rows,
  ratings lines = inr rows <->
  Forall2 (fun l x => parse_line l = inr x) lines rows.
Proof.
  induction lines as [| l lines IH]; intros rows.
  - split.
    + intros [= <-]. constructor.
    + intros H. now inversion H.
  - rewrite ratings_cons.
    destruct (parse_line l) as [e | x] eqn:El,
             (ratings lines) as [es | xs] eqn:Er.
    + split; [discriminate |]. intros H. inversion H; congruence.
    + split; [discriminate |]. intros H. inversion H; congruence.
    + split; [discriminate |]. intros H.
      inversion H as [| ? y ? ys Hh Ht]; subst. apply IH in Ht. discriminate.
    + split.
      * intros [= <-]. constructor; [assumption | now apply IH].
      * intros H. inversion H as [| ? y ? ys Hh Ht]; subst.
        apply IH in Ht. congruence.
Qed.

Lemma ratings_fails (lines : list string) : forall es,
  ratings lines = inl es ->
  es <> [] /\
  forall e, In e es <-> exists l, In l lines /\ parse_line l = inl e.
Proof.
  induction lines as [| l lines IH]; intros es; [discriminate |].
  rewrite ratings_cons.
  destruct (parse_line l) as [e0 | x] eqn:El,
           (ratings lines) as [es' | xs] eqn:Er.
  - intros [= <-]. destruct (IH es' eq_refl) as [_ Hall].
    split; [discriminate |]. intros e. simpl. rewrite Hall. split.
    + intros [<- | [l' [Hl' He]]]; [exists l | exists l']; tauto.
    + intros [l' [[<- | Hl'] He]]; [left; congruence | right; now exists l'].
  - intros [= <-]. split; [discriminate |]. intros e. simpl. split.
    + intros [<- | []]. exists l. tauto.
    + intros [l' [[<- | Hl'] He]]; [left; congruence |].
      exfalso. apply (proj1 (ratings_succeeds lines xs)) in Er.
      clear - Er Hl' He. induction Er as [| a y ls ys Ha _ IHr]; [easy |].
      destruct Hl' as [<- | Hl']; [congruence | now apply IHr].
  - intros [= <-]. destruct (IH es' eq_refl) as [Hne Hall].
    split; [assumption |]. intros e. rewrite Hall. split.
    + intros [l' [Hl' He]]. exists l'. split; [now right | assumption].
    + intros [l' [[<- | Hl'] He]]; [congruence | now exists l'].
  - discriminate.
Qed.

(** X5.  [ratings], evaluated in full, is all or nothing: it succeeds
    exactly when every line parses, with one row per line in the order of
    the lines; a single line that does not parse makes the whole of it
    fail, and the exception reported is that of a line that does not
    parse. *)
Theorem ratings_all_or_nothing :
  (forall lines rows,
     ratings lines = inr rows <->
     Forall2 (fun l x => parse_line l = inr x) lines rows) /\
  (forall lines es,
     ratings lines = inl es ->
     es <> [] /\
     forall e, In e es <-> exists l, In l lines /\ parse_line l = inl e) /\
  (forall lines l e,
     In l lines -> parse_line l = inl e ->
     exists es, ratings lines = inl es /\ In e es).
Proof.
  split; [exact ratings_succeeds |]. split; [exact ratings_fails |].
  intros lines l e Hl He. destruct (ratings lines) as [es | rows] eqn:Er.
  - exists es. split; [reflexivity |].
    apply (ratings_fails lines es Er). now exists l.
  - exfalso. apply ratings_succeeds in Er.
    clear - Er Hl He. induction Er as [| a y ls ys Ha _ IHr]; [easy |].
    destruct Hl as [<- | Hl]; [congruence | now apply IHr].
Qed.

End Parsing.

(** ** What the filter keeps *)

Section GrepFacts.

Lemma append_assoc (a b c : string) :
  ((a ++ b) ++ c)%string = (a ++ (b ++ c))%string.
Proof. induction a as [| x a IH]; simpl; [reflexivity | now rewrite IH]. Qed.

(** The pattern starts with a quote: it cannot start inside a text without
    quotes. *)
Lemma contains_skip (w rest : string) :
  occurs dquote w = false ->
  contains grep_pattern (w ++ rest) = contains grep_pattern rest.
Proof.
  induction w as [| a w IH]; intros H; [reflexivity |].
  cbn [occurs] in H. apply orb_false_iff in H. destruct H as [Ha Hw].
  cbn [append contains]. rewrite (IH Hw).
  unfold grep_pattern at 1. cbn [prefix].
  destruct (ascii_dec dquote a) as [<- | _]; [| reflexivity].
  now rewrite Ascii.eqb_refl in Ha.
Qed.

(** After an opening quote the pattern is found at once exactly when the
    field is [0]. *)
Lemma prefix_zero_field (w rest : string) :
  occurs dquote w = false ->
  prefix (String "0"%char (String dquote EmptyString))
         (w ++ String dquote rest) = String.eqb w "0".
Proof.
  intros H. destruct w as [| a w]; [reflexivity |].
  cbn [occurs] in H. apply orb_false_iff in H. destruct H as [_ Hw].
  cbn [append prefix String.eqb].
  destruct (ascii_dec "0"%char a) as [<- | Ha].
  - rewrite Ascii.eqb_refl. cbn [andb]. destruct w as [| b w].
    + cbn [append prefix String.eqb].
      destruct (ascii_dec dquote dquote); [now destruct rest | congruence].
    + cbn [occurs] in Hw. apply orb_false_iff in Hw. destruct Hw as [Hb _].
      cbn [append prefix String.eqb].
      destruct (ascii_dec dquote b) as [<- | _]; [| reflexivity].
      now rewrite Ascii.eqb_refl in Hb.
  - symmetry. apply andb_false_iff. left. apply Ascii.eqb_neq. congruence.
Qed.

(** A quoted field followed by anything. *)
Lemma contains_quoted (w rest : string) :
  occurs dquote w = false ->
  contains grep_pattern (quoted w ++ rest) =
  String.eqb w "0" || contains grep_pattern (String dquote rest).
Proof.
  intros H. unfold quoted.
  change (String dquote (w ++ String dquote EmptyString) ++ rest)%string
    with (String dquote ((w ++ String dquote EmptyString) ++ rest))%string.
  rewrite append_assoc.
  change (String dquote EmptyString ++ rest)%string with (String dquote rest).
  cbn [contains]. rewrite (contains_skip w _ H). f_equal.
  unfold grep_pattern. cbn [prefix].
  destruct (ascii_dec dquote dquote) as [_ | N]; [| congruence].
  now apply prefix_zero_field.
Qed.

Lemma contains_csv_line (u s r : string) :
  occurs dquote u = false -> occurs dquote s = false ->
  occurs dquote r = false ->
  contains grep_pattern (csv_line u s r) =
  String.eqb u "0" || String.eqb s "0" || String.eqb r "0".
Proof.
  intros Hu Hs Hr. unfold csv_line.
  rewrite (contains_quoted u _ Hu).
  change (contains grep_pattern (String dquote (";" ++ quoted s ++ ";" ++ quoted r)))
    with (contains grep_pattern (quoted s ++ ";" ++ quoted r)).
  rewrite (contains_quoted s _ Hs).
  change (contains grep_pattern (String dquote (";" ++ quoted r)))
    with (contains grep_pattern (quoted r)).
  rewrite <- (append_empty_r (quoted r)), (contains_quoted r _ Hr).
  change (contains grep_pattern (String dquote EmptyString)) with false.
  now rewrite orb_false_r, orb_assoc.
Qed.

(** X6.  On a line of three quoted fields that hold no quote themselves,
    the filter of the first cell keeps the line exactly when one of the
    three fields, the user id, the ISBN or the rating, is the text [0]. *)
Theorem grep_keeps_zero_fields (u s r : string) :
  occurs dquote u = false -> occurs dquote s = false ->
  occurs dquote r = false ->
  contains grep_pattern (csv_line u s r) =
  String.eqb u "0" || String.eqb s "0" || String.eqb r "0".
Proof. apply contains_csv_line. Qed.

(** The decimal writing of an integer is [0] exactly for zero. *)
Lemma decimal_is_zero (z : Z) : String.eqb (decimal z) "0" = (z =? 0).
Proof.
  destruct (z =? 0) eqn:E.
  - apply Z.eqb_eq in E. now subst.
  - apply String.eqb_neq. intros H. apply Z.eqb_neq in E. apply E.
    pose proof (int_decimal z) as Hz. rewrite H in Hz.
    change (int "0") with (@inr error Z 0) in Hz. congruence.
Qed.

Lemma printable_ascii (s : string) : printable s = true -> all_ascii s = true.
Proof.
  induction s as [| a s IH]; [reflexivity |]. cbn [printable all_ascii].
  intros H. apply andb_true_iff in H. destruct H as [Ha Hs].
  apply andb_true_iff in Ha. destruct Ha as [_ Ha].
  rewrite (IH Hs), andb_true_r. apply Nat.leb_le in Ha. apply Nat.ltb_lt. lia.
Qed.

Lemma ratings_lines_of (rows : list row) :
  Forall (fun x => plain (snd (fst x)) /\ printable (snd (fst x)) = true) rows ->
  ratings (map line_of rows) = inr rows.
Proof.
  induction 1 as [| [[u s] r] rows [Hp Ha] _ IH]; [reflexivity |].
  cbn [map]. rewrite ratings_cons. unfold line_of at 1. cbn [fst snd].
  now rewrite (parse_line_decimal u r s Hp (printable_ascii s Ha)), IH.
Qed.

(** X15.  The first two cells on a file written in its format, one row on
    each line: when every ISBN is a printable ASCII text (no line
    terminator, no NUL) free of quotes and semicolons, [ratings] over the
    filtered file succeeds and holds, in the order of the file, exactly the
    rows whose user id, ISBN or rating is zero. *)
Theorem ratings_of_a_written_file (rows : list row) :
  Forall (fun x => plain (snd (fst x)) /\ printable (snd (fst x)) = true) rows ->
  ratings (implicit_csv (map line_of rows)) = inr (filter zero_field rows).
Proof.
  intros H. unfold implicit_csv, grep. rewrite filter_map_swap.
  rewrite (filter_ext_in (fun a => contains grep_pattern (line_of a)) zero_field).
  - apply ratings_lines_of. rewrite Forall_forall in *.
    intros x Hx. apply filter_In in Hx. now apply H.
  - intros [[u s] r] Hx. apply (proj1 (Forall_forall _ _) H) in Hx.
    destruct Hx as [[Hq _] _]. unfold line_of, zero_field. cbn [fst snd] in *.
    rewrite contains_csv_line; try assumption; try apply plain_decimal.
    now rewrite !decimal_is_zero.
Qed.

End GrepFacts.

(** ** More on [takeOrdered] *)

Section RankingFacts.

Context {A : Type} (key : A -> Q).

(** Sorting leaves a sorted list as it is. *)
Lemma sorted_id (l : list A) :
  StronglySorted (key_le key) l -> sorted key l = l.
Proof.
  induction 1 as [| a l Hl IH Ha]; [reflexivity |].
  simpl. rewrite IH. destruct l as [| y l]; [reflexivity |].
  inversion Ha as [| ? ? Hy _]; subst. simpl.
  apply Qle_bool_iff in Hy. now rewrite Hy.
Qed.

Lemma firstn_sorted (R : A -> A -> Prop) (n : nat) (l : list A) :
  StronglySorted R l -> StronglySorted R (firstn n l).
Proof.
  intros H. rewrite <- (firstn_skipn n l) in H.
  now apply StronglySorted_app_inv in H.
Qed.

Lemma takeOrdered_twice (m n : nat) (l : list A) :
  takeOrdered m key (takeOrdered n key l) = takeOrdered (Nat.min m n) key l.
Proof.
  unfold takeOrdered.
  rewrite (sorted_id (firstn n (sorted key l))).
  - apply firstn_firstn.
  - apply firstn_sorted, sorted_sorted.
Qed.

Lemma In_takeOrdered (n : nat) (l : list A) (x : A) :
  In x (takeOrdered n key l) -> In x l.
Proof.
  unfold takeOrdered. intros H.
  apply (Permutation_in _ (sorted_perm key l)).
  rewrite <- (firstn_skipn n (sorted key l)). apply in_or_app. now left.
Qed.

(** Two sorted lists with the same elements are the same list, when equal
    keys only belong to equal elements. *)
Lemma sorted_unique (l : list A) : forall l',
  Permutation l l' ->
  StronglySorted (key_le key) l -> StronglySorted (key_le key) l' ->
  (forall a b, In a l -> In b l -> (key a == key b)%Q -> a = b) ->
  l = l'.
Proof.
  induction l as [| x t IH]; intros l' HP Hs Hs' Hk.
  - apply Permutation_nil in HP. now subst.
  - destruct l' as [| y t'].
    { apply Permutation_sym, Permutation_nil in HP. discriminate. }
    inversion Hs as [| ? ? Ht Hx]; subst.
    inversion Hs' as [| ? ? Ht' Hy]; subst.
    assert (Hxy : x = y).
    { assert (Hyl : In y (x :: t)).
      { apply (Permutation_in _ (Permutation_sym HP)). now left. }
      assert (Hxl : In x (y :: t')).
      { apply (Permutation_in _ HP). now left. }
      apply Hk; [now left | assumption |].
      apply Qle_antisym.
      - destruct Hyl as [<- | Hyt]; [apply Qle_refl |].
        now apply (proj1 (Forall_forall _ _) Hx).
      - destruct Hxl as [<- | Hxt]; [apply Qle_refl |].
        now apply (proj1 (Forall_forall _ _) Hy). }
    subst y. f_equal. apply IH; try assumption.
    + now apply Permutation_cons_inv in HP.
    + intros a b Ha Hb. apply Hk; now right.
Qed.

End RankingFacts.

Section Ranking.

(** X11.  When two predictions with the same score are the same
    prediction, the answer of [takeOrdered] does not depend on the order
    in which the predictions arrive. *)
Theorem top_ignores_order (num : nat) (preds preds' : list Rating) :
  Permutation preds preds' ->
  (forall a b, In a preds -> In b preds -> (rating a == rating b)%Q -> a = b) ->
  top num preds = top num preds'.
Proof.
  intros HP Hk. unfold top, takeOrdered. f_equal.
  set (key := fun x : Rating => (- rating x)%Q).
  apply (sorted_unique key).
  - rewrite !sorted_perm. exact HP.
  - apply sorted_sorted.
  - apply sorted_sorted.
  - intros a b Ha Hb E. apply Hk.
    + now apply (Permutation_in _ (sorted_perm key preds)).
    + now apply (Permutation_in _ (sorted_perm key preds)).
    + apply Qeq_bool_iff. rewrite <- Qeq_bool_opp. now apply Qeq_bool_iff.
Qed.

(** X12.  Asking the best [m] of the best [n] predictions gives the best
    [min m n] predictions. *)
Theorem top_of_top (m n : nat) (preds : list Rating) :
  top m (top n preds) = top (Nat.min m n) preds.
Proof. apply takeOrdered_twice. Qed.

End Ranking.

(** ** The books of a user and the unseen books *)

Section IndexOrder.

Context {A : Type}.

(** [zipWithIndex] numbers the elements in ascending order. *)
Lemma zipWithIndex_from_sorted (l : list A) : forall start,
  StronglySorted Z.lt (map snd (zipWithIndex_from start l)).
Proof.
  induction l as [| a l IH]; intros start; simpl; constructor.
  - apply IH.
  - apply Forall_forall. intros n Hn.
    apply zipWithIndex_from_snd in Hn. lia.
Qed.

Lemma zipWithIndex_from_seq (l : list A) : forall start,
  map snd (zipWithIndex_from start l) =
  map (fun i => start + Z.of_nat i) (seq 0 (length l)).
Proof.
  induction l as [| a l IH]; intros start; simpl; [reflexivity |].
  rewrite IH, <- seq_shift, map_map. f_equal; [lia |].
  apply map_ext. intros i. lia.
Qed.

Lemma filter_all (p : A -> bool) (l : list A) :
  (forall x, In x l -> p x = true) -> filter p l = l.
Proof.
  induction l as [| a l IH]; intros H; simpl; [reflexivity |].
  rewrite (H a (or_introl eq_refl)). f_equal. apply IH.
  intros x Hx. apply H. now right.
Qed.

Lemma filter_none (p : A -> bool) (l : list A) :
  filter p l = [] <-> forall x, In x l -> p x = false.
Proof.
  induction l as [| a l IH]; simpl.
  - split; [intros _ x [] | reflexivity].
  - destruct (p a) eqn:E.
    + split; [discriminate |]. intros H.
      rewrite (H a (or_introl eq_refl)) in E. discriminate.
    + rewrite IH. split.
      * intros H x [<- | Hx]; [assumption | now apply H].
      * intros H x Hx. apply H. now right.
Qed.

End IndexOrder.

Lemma pairs_sorted (u : Z) (p : Z -> bool) (l : list Z) :
  StronglySorted Z.lt l ->
  StronglySorted (fun a b : Z * Z => snd a < snd b)
                 (map (fun x => (u, x)) (filter p l)).
Proof.
  induction 1 as [| a l Hl IH Ha]; simpl; [constructor |].
  destruct (p a); [| assumption]. simpl. constructor; [assumption |].
  apply Forall_forall. intros [v i] Hi. apply in_map_iff in Hi.
  destruct Hi as [x [[= <- <-] Hx]]. apply filter_In in Hx. simpl.
  now apply (proj1 (Forall_forall _ _) Ha).
Qed.

Section Books.

Variable distinct : list string -> list string.
Hypothesis distinct_NoDup : forall l, NoDup (distinct l).
Hypothesis distinct_In : forall l x, In x (distinct l) <-> In x l.

(** The books of a user in closed form: the indices of the ISBNs of the
    rows that the comparison by identity selects, row by row. *)
Lemma users_books_closed (u : Z) (ratings : list row) :
  users_books distinct u ratings =
  map (fun x => lookup (isbns_with_indices distinct ratings) (snd (fst x)))
      (filter (fun x => same_int (fst (fst x)) u) ratings).
Proof.
  unfold users_books.
  rewrite (ratings_ones_closed distinct distinct_NoDup distinct_In).
  rewrite filter_map_swap, map_map. reflexivity.
Qed.

(** Whatever the user, a book of the list is the index of the ISBN of one
    of the rows of the user. *)
Lemma users_books_sound (u : Z) (ratings : list row) (n : Z) :
  In n (users_books distinct u ratings) ->
  exists s r, In (u, s, r) ratings /\
              In (s, n) (isbns_with_indices distinct ratings).
Proof.
  rewrite users_books_closed, in_map_iff.
  intros [[[u' s] r] [E H]]. apply filter_In in H. destruct H as [H Hu].
  simpl in *. apply same_int_eq in Hu. subst. exists s, r.
  split; [assumption |].
  apply lookup_In. now apply (table_knows distinct distinct_In ratings u s r).
Qed.

Lemma In_users_books (u : Z) (ratings : list row) (n : Z) :
  -5 <= u <= 256 ->
  (In n (users_books distinct u ratings) <->
   exists s r, In (u, s, r) ratings /\
               In (s, n) (isbns_with_indices distinct ratings)).
Proof.
  intros Hu. split; [apply users_books_sound |].
  rewrite users_books_closed, in_map_iff.
  intros [s [r [H Ht]]]. exists (u, s, r). split.
  - simpl. apply (NoDup_fst_functional _ s _ _
                    (table_NoDup_fst distinct distinct_NoDup ratings));
      [| assumption].
    apply lookup_In. now apply (table_knows distinct distinct_In ratings u s r).
  - apply filter_In. split; [assumption |]. simpl.
    rewrite same_int_small by assumption. apply Z.eqb_refl.
Qed.

(** X7.  For a user id from -5 to 256, as the 8 of the notebook,
    [books_for_them] holds exactly the indices of the ISBNs that occur on a
    row of the user, one entry per row of the user, and it is empty exactly
    when the user has no row.  For any other user id the comparison by
    identity selects no row and [books_for_them] is empty. *)
Theorem books_of_a_user (u : Z) (ratings : list row) :
  let books := books_for_them distinct u ratings in
  (-5 <= u <= 256 ->
   (forall n, In n books <->
              exists s r, In (u, s, r) ratings /\
                          In (s, n) (isbns_with_indices distinct ratings)) /\
   length books = count (fun x => fst (fst x) =? u) ratings /\
   (books = [] <-> forall s r, ~ In (u, s, r) ratings)) /\
  (~ (-5 <= u <= 256) -> books = []).
Proof.
  intros books. unfold books, books_for_them. split.
  - intros Hu. split; [| split].
    + intros n. now apply In_users_books.
    + rewrite users_books_closed, length_map. unfold count. f_equal.
      apply filter_ext. intros x. now apply same_int_small.
    + rewrite users_books_closed. split.
      * intros H s r Hin. apply map_eq_nil in H.
        apply (proj1 (filter_none _ _) H) in Hin. simpl in Hin.
        rewrite same_int_small, Z.eqb_refl in Hin by assumption. discriminate.
      * intros H. replace (filter _ ratings) with (@nil row); [reflexivity |].
        symmetry. apply filter_none. intros [[u' s] r] Hin. simpl.
        rewrite same_int_small by assumption.
        apply Z.eqb_neq. intros ->. now apply (H s r).
  - intros Hu. rewrite users_books_closed.
    replace (filter _ ratings) with (@nil row); [reflexivity |].
    symmetry. apply filter_none. intros x _. now apply same_int_large.
Qed.

(** X8.  [unseen] pairs the user with exactly the indices of the table
    that are not among the books of the user, each once and in ascending
    order; together with the distinct books of the user they are as many
    as the table has entries. *)
Theorem unseen_is_the_complement (u : Z) (ratings : list row) :
  let n_isbns :=
    Z.of_nat (length (nodup string_dec (map (fun x => snd (fst x)) ratings))) in
  let books := books_for_them distinct u ratings in
  (forall v i, In (v, i) (unseen distinct u ratings) <->
               v = u /\ 0 <= i < n_isbns /\ ~ In i books) /\
  StronglySorted (fun a b => snd a < snd b) (unseen distinct u ratings) /\
  (length (unseen distinct u ratings) + length (nodup Z.eq_dec books) =
   length (nodup string_dec (map (fun x => snd (fst x)) ratings)))%nat.
Proof.
  intros n_isbns books. split; [| split].
  - intros v i. unfold unseen. rewrite in_map_iff. split.
    + intros [x [[= <- <-] H]]. apply filter_In in H. destruct H as [Hx Hn].
      split; [reflexivity |]. split.
      * now apply (table_indices distinct distinct_NoDup distinct_In).
      * now apply not_in_spec.
    + intros [-> [Hi Hn]]. exists i. split; [reflexivity |].
      apply filter_In. split.
      * now apply (table_indices distinct distinct_NoDup distinct_In).
      * now apply not_in_spec.
  - unfold unseen. apply pairs_sorted. apply zipWithIndex_from_sorted.
  - rewrite <- (table_length distinct distinct_NoDup distinct_In).
    unfold unseen. rewrite length_map.
    rewrite <- (length_map snd (isbns_with_indices distinct ratings)).
    rewrite <- (filter_length (fun x => not_in x books)
                  (map snd (isbns_with_indices distinct ratings))).
    f_equal. apply Permutation_length, NoDup_Permutation.
    + apply NoDup_nodup.
    + apply NoDup_filter, table_NoDup_snd.
    + intros n. rewrite nodup_In, filter_In, negb_true_iff.
      rewrite <- not_true_iff_false, not_in_spec. split.
      * intros H. split; [| tauto].
        apply users_books_sound in H. destruct H as [s [r [_ Ht]]].
        apply in_map_iff. now exists (s, n).
      * intros [_ H]. destruct (in_dec Z.eq_dec n books); tauto.
Qed.

(** X9.  For a user without any row, [books_for_them] is empty and
    [unseen] lists every index of the table, from 0 upwards. *)
Theorem unseen_of_an_unknown_user (u : Z) (ratings : list row) :
  (forall s r, ~ In (u, s, r) ratings) ->
  books_for_them distinct u ratings = [] /\
  unseen distinct u ratings =
  map (fun i => (u, Z.of_nat i))
      (seq 0 (length (nodup string_dec (map (fun x => snd (fst x)) ratings)))).
Proof.
  intros H.
  assert (Hb : books_for_them distinct u ratings = []).
  { unfold books_for_them. rewrite users_books_closed.
    replace (filter _ ratings) with (@nil row); [reflexivity |].
    symmetry. apply filter_none. intros [[u' s] r] Hin. simpl.
    destruct (same_int u' u) eqn:E; [| reflexivity].
    apply same_int_eq in E. subst. now apply H in Hin. }
  split; [assumption |].
  unfold unseen. rewrite Hb, filter_all by reflexivity.
  unfold isbns_with_indices, zipWithIndex. rewrite zipWithIndex_from_seq.
  rewrite map_map.
  rewrite <- (table_length distinct distinct_NoDup distinct_In).
  unfold isbns_with_indices, zipWithIndex. rewrite zipWithIndex_from_length.
  reflexivity.
Qed.

(** X10.  The rating column never reaches the trainer or the query: two
    inputs with the same users and ISBNs, row by row, give the same table,
    the same [ratings_ones], the same books of a user and the same unseen
    books. *)
Theorem rating_column_is_ignored (rs rs' : list row) :
  map fst rs = map fst rs' ->
  isbns_with_indices distinct rs = isbns_with_indices distinct rs' /\
  ratings_ones distinct rs = ratings_ones distinct rs' /\
  forall u,
    books_for_them distinct u rs = books_for_them distinct u rs' /\
    unseen distinct u rs = unseen distinct u rs'.
Proof.
  intros H.
  assert (Ht : isbns_with_indices distinct rs = isbns_with_indices distinct rs').
  { unfold isbns_with_indices, isbns.
    rewrite <- (map_map fst snd rs), <- (map_map fst snd rs'). now rewrite H. }
  assert (Ho : ratings_ones distinct rs = ratings_ones distinct rs').
  { rewrite !(ratings_ones_closed distinct distinct_NoDup distinct_In), Ht.
    rewrite <- (map_map fst
                  (fun p => (fst p, lookup (isbns_with_indices distinct rs') (snd p), 1))
                  rs),
            <- (map_map fst
                  (fun p => (fst p, lookup (isbns_with_indices distinct rs') (snd p), 1))
                  rs').
    now rewrite H. }
  split; [assumption |]. split; [assumption |]. intros u.
  assert (Hb : books_for_them distinct u rs = books_for_them distinct u rs').
  { unfold books_for_them, users_books. now rewrite Ho. }
  split; [assumption |]. unfold unseen. now rewrite Ht, Hb.
Qed.

End Books.

(** ** The recommendations *)

Section Recommendations.

Variable distinct : list string -> list string.
Variable Model : Type.
Variable trainImplicit : list triple -> forall (rank iterations : nat) (alpha : Q), Model.
Variable predictAll : Model -> list (Z * Z) -> list Rating.
Hypothesis distinct_NoDup : forall l, NoDup (distinct l).
Hypothesis distinct_In : forall l x, In x (distinct l) <-> In x l.
Hypothesis predictAll_asked : forall m q r,
  In r (predictAll m q) -> In (user r, product r) q.

(** X13.  Every recommendation returned is for the user of the query and
    for an index of the table, that is, a book of the data set. *)
Theorem recommendations_are_known_books (u : Z) (num : nat) (ratings : list row) :
  forall r,
    In r (top num (predictions distinct Model trainImplicit predictAll u ratings)) ->
    user r = u /\
    0 <= product r <
      Z.of_nat (length (nodup string_dec (map (fun x => snd (fst x)) ratings))).
Proof.
  intros r Hr. unfold top in Hr. apply In_takeOrdered in Hr.
  unfold predictions in Hr. apply predictAll_asked in Hr.
  unfold unseen in Hr. apply in_map_iff in Hr.
  destruct Hr as [i [[= Hu Hi] Hin]]. apply filter_In in Hin.
  destruct Hin as [Hin _]. split; [now symmetry |]. rewrite <- Hi.
  now apply (table_indices distinct distinct_NoDup distinct_In).
Qed.

End Recommendations.

(** ** The order of [distinct] *)

Section Renaming.

Variables d1 d2 : list string -> list string.
Hypothesis d1_NoDup : forall l, NoDup (d1 l).
Hypothesis d1_In : forall l x, In x (d1 l) <-> In x l.
Hypothesis d2_NoDup : forall l, NoDup (d2 l).
Hypothesis d2_In : forall l x, In x (d2 l) <-> In x l.

Lemma isbn_of_In (t : list (string * Z)) (n : Z) :
  In n (map snd t) -> In (isbn_of t n, n) t.
Proof.
  unfold isbn_of. induction t as [| [s0 n0] t IH]; simpl; [tauto |].
  intros [E | Hin].
  - subst. rewrite Z.eqb_refl. now left.
  - destruct (n0 =? n) eqn:En.
    + apply Z.eqb_eq in En. subst. now left.
    + right. now apply IH.
Qed.

(** X14.  The order in which [distinct] produces the ISBNs only renames
    the items: for two admissible orders there is a renaming of the
    indices, one to one on the indices of the first table, that carries
    the first table to the second and the first [ratings_ones] to the
    second. *)
Theorem order_of_distinct_renames_items (ratings : list row) :
  let t1 := isbns_with_indices d1 ratings in
  let t2 := isbns_with_indices d2 ratings in
  exists f : Z -> Z,
    (forall s n, In (s, n) t1 -> In (s, f n) t2) /\
    (forall n m, In n (map snd t1) -> In m (map snd t1) -> f n = f m -> n = m) /\
    ratings_ones d2 ratings =
    map (fun t => (fst (fst t), f (snd (fst t)), snd t)) (ratings_ones d1 ratings).
Proof.
  intros t1 t2. exists (fun n => lookup t2 (isbn_of t1 n)).
  assert (Hback : forall s n, In (s, n) t1 -> isbn_of t1 n = s).
  { intros s n H.
    apply (NoDup_snd_injective t1 _ _ n (table_NoDup_snd d1 ratings));
      [| assumption].
    apply isbn_of_In. apply in_map_iff. now exists (s, n). }
  assert (Hkeys : forall s n, In (s, n) t1 -> In (s, lookup t2 s) t2).
  { intros s n H. apply lookup_In.
    destruct (table_from_rows d1 d1_In ratings s n H) as [u [r Hr]].
    now apply (table_knows d2 d2_In ratings u s r). }
  split; [| split].
  - intros s n H. rewrite (Hback s n H). now apply (Hkeys s n).
  - intros n m Hn Hm E.
    apply isbn_of_In in Hn, Hm.
    pose proof (Hkeys _ _ Hn) as Kn. pose proof (Hkeys _ _ Hm) as Km.
    rewrite E in Kn.
    assert (Es : isbn_of t1 n = isbn_of t1 m).
    { now apply (NoDup_snd_injective t2 _ _ _ (table_NoDup_snd d2 ratings) Kn Km). }
    rewrite Es in Hn.
    now apply (NoDup_fst_functional t1 _ _ _ (table_NoDup_fst d1 d1_NoDup ratings) Hn Hm).
  - rewrite (ratings_ones_closed d2 d2_NoDup d2_In),
            (ratings_ones_closed d1 d1_NoDup d1_In), map_map.
    apply map_ext_in. intros [[u s] r] Hx. cbn [fst snd].
    pose proof (table_knows d1 d1_In ratings u s r Hx) as Hk.
    apply lookup_In in Hk. fold t1 in Hk. fold t1 t2.
    now rewrite (Hback _ _ Hk).
Qed.

End Renaming.

(** ** Concrete runs of the further properties *)

Lemma distinct_reversed_NoDup (l : list string) : NoDup (distinct_reversed l).
Proof. apply NoDup_rev, distinct_first_NoDup. Qed.

Lemma distinct_reversed_In (l : list string) (x : string) :
  In x (distinct_reversed l) <-> In x l.
Proof. unfold distinct_reversed. now rewrite <- in_rev, distinct_first_In. Qed.

Lemma parse_line_reads_back_witness :
  plain "034545104X" /\ all_ascii "034545104X" = true /\
  parse_line (csv_line (decimal 276725) "034545104X" (decimal 0)) =
  inr (276725, "034545104X"%string, 0).
Proof.
  assert (Hp : plain "034545104X") by (split; reflexivity).
  split; [exact Hp |]. split; [reflexivity |].
  exact (parse_line_reads_back 276725 0 "034545104X" Hp eq_refl).
Defined.

Lemma parsed_isbn_is_plain_witness :
  parse_line first_line = inr (276725, "034545104X"%string, 0) /\
  plain "034545104X" /\ all_ascii "034545104X" = true.
Proof.
  split; [reflexivity |].
  exact (parsed_isbn_is_plain first_line 276725 0 "034545104X" eq_refl).
Defined.

Lemma extra_columns_ignored_witness :
  parse_line first_line = inr (276725, "034545104X"%string, 0) /\
  parse_line (first_line ++ String ";"%char "a fourth column") =
  inr (276725, "034545104X"%string, 0).
Proof.
  split; [reflexivity |].
  exact (extra_columns_ignored first_line "a fourth column" _ eq_refl).
Defined.

Lemma grep_keeps_zero_fields_witness :
  occurs dquote "276726" = false /\ occurs dquote "0155061224" = false /\
  occurs dquote "5" = false /\
  contains grep_pattern (csv_line "276726" "0155061224" "5") =
  String.eqb "276726" "0" || String.eqb "0155061224" "0" || String.eqb "5" "0".
Proof.
  split; [reflexivity |]. split; [reflexivity |]. split; [reflexivity |].
  exact (grep_keeps_zero_fields "276726" "0155061224" "5" eq_refl eq_refl eq_refl).
Defined.

Lemma books_of_a_user_witness :
  (forall l, NoDup (distinct_first l)) /\
  (forall l x, In x (distinct_first l) <-> In x l) /\
  -5 <= 9 <= 256 /\
  books_for_them distinct_first 9 three_rows = [1; 0] /\
  let books := books_for_them distinct_first 9 three_rows in
  (-5 <= 9 <= 256 ->
   (forall n, In n books <->
              exists s r, In (9, s, r) three_rows /\
                          In (s, n) (isbns_with_indices distinct_first three_rows)) /\
   length books = count (fun x => fst (fst x) =? 9) three_rows /\
   (books = [] <-> forall s r, ~ In (9, s, r) three_rows)) /\
  (~ (-5 <= 9 <= 256) -> books = []).
Proof.
  split; [exact distinct_first_NoDup |].
  split; [exact distinct_first_In |].
  split; [lia |]. split; [reflexivity |].
  exact (books_of_a_user distinct_first distinct_first_NoDup distinct_first_In
           9 three_rows).
Defined.

Lemma unseen_is_the_complement_witness :
  (forall l, NoDup (distinct_first l)) /\
  (forall l x, In x (distinct_first l) <-> In x l) /\
  let n_isbns :=
    Z.of_nat (length (nodup string_dec (map (fun x => snd (fst x)) three_rows))) in
  let books := books_for_them distinct_first 8 three_rows in
  (forall v i, In (v, i) (unseen distinct_first 8 three_rows) <->
               v = 8 /\ 0 <= i < n_isbns /\ ~ In i books) /\
  StronglySorted (fun a b => snd a < snd b) (unseen distinct_first 8 three_rows) /\
  (length (unseen distinct_first 8 three_rows) + length (nodup Z.eq_dec books) =
   length (nodup string_dec (map (fun x => snd (fst x)) three_rows)))%nat.
Proof.
  split; [exact distinct_first_NoDup |].
  split; [exact distinct_first_In |].
  exact (unseen_is_the_complement distinct_first distinct_first_NoDup
           distinct_first_In 8 three_rows).
Defined.

Lemma unseen_of_an_unknown_user_witness :
  (forall l, NoDup (distinct_first l)) /\
  (forall l x, In x (distinct_first l) <-> In x l) /\
  (forall s r, ~ In (7, s, r) three_rows) /\
  books_for_them distinct_first 7 three_rows = [] /\
  unseen distinct_first 7 three_rows =
  map (fun i => (7, Z.of_nat i))
      (seq 0 (length (nodup string_dec (map (fun x => snd (fst x)) three_rows)))).
Proof.
  assert (H : forall s r, ~ In (7, s, r) three_rows).
  { intros s r [E | [E | [E | []]]]; discriminate. }
  split; [exact distinct_first_NoDup |].
  split; [exact distinct_first_In |].
  split; [exact H |].
  exact (unseen_of_an_unknown_user distinct_first distinct_first_NoDup
           distinct_first_In 7 three_rows H).
Defined.

Lemma rating_column_is_ignored_witness :
  (forall l, NoDup (distinct_first l)) /\
  (forall l x, In x (distinct_first l) <-> In x l) /\
  map fst three_rows = map fst three_rows_rated /\
  isbns_with_indices distinct_first three_rows =
    isbns_with_indices distinct_first three_rows_rated /\
  ratings_ones distinct_first three_rows =
    ratings_ones distinct_first three_rows_rated /\
  forall u,
    books_for_them distinct_first u three_rows =
      books_for_them distinct_first u three_rows_rated /\
    unseen distinct_first u three_rows = unseen distinct_first u three_rows_rated.
Proof.
  split; [exact distinct_first_NoDup |].
  split; [exact distinct_first_In |].
  split; [reflexivity |].
  exact (rating_column_is_ignored distinct_first distinct_first_NoDup
           distinct_first_In three_rows three_rows_rated eq_refl).
Defined.

Lemma top_ignores_order_witness :
  Permutation two_scores two_scores_swapped /\
  (forall a b, In a two_scores -> In b two_scores ->
               (rating a == rating b)%Q -> a = b) /\
  top 20 two_scores = top 20 two_scores_swapped.
Proof.
  assert (HP : Permutation two_scores two_scores_swapped) by apply perm_swap.
  assert (Hk : forall a b, In a two_scores -> In b two_scores ->
                           (rating a == rating b)%Q -> a = b).
  { intros a b [<- | [<- | []]] [<- | [<- | []]] E;
      try reflexivity; discriminate E. }
  split; [exact HP |]. split; [exact Hk |].
  exact (top_ignores_order 20 two_scores two_scores_swapped HP Hk).
Defined.

Lemma recommendations_are_known_books_witness :
  (forall l, NoDup (distinct_first l)) /\
  (forall l x, In x (distinct_first l) <-> In x l) /\
  (forall m q r, In r (predict_index m q) -> In (user r, product r) q) /\
  forall r,
    In r (top 20 (predictions distinct_first unit no_training predict_index
                              8 three_rows)) ->
    user r = 8 /\
    0 <= product r <
      Z.of_nat (length (nodup string_dec (map (fun x => snd (fst x)) three_rows))).
Proof.
  split; [exact distinct_first_NoDup |].
  split; [exact distinct_first_In |].
  split; [exact predict_index_asked |].
  exact (recommendations_are_known_books distinct_first unit no_training
           predict_index distinct_first_NoDup distinct_first_In
           predict_index_asked 8 20%nat three_rows).
Defined.

Lemma order_of_distinct_renames_items_witness :
  (forall l, NoDup (distinct_first l)) /\
  (forall l x, In x (distinct_first l) <-> In x l) /\
  (forall l, NoDup (distinct_reversed l)) /\
  (forall l x, In x (distinct_reversed l) <-> In x l) /\
  let t1 := isbns_with_indices distinct_first three_rows in
  let t2 := isbns_with_indices distinct_reversed three_rows in
  exists f : Z -> Z,
    (forall s n, In (s, n) t1 -> In (s, f n) t2) /\
    (forall n m, In n (map snd t1) -> In m (map snd t1) -> f n = f m -> n = m) /\
    ratings_ones distinct_reversed three_rows =
    map (fun t => (fst (fst t), f (snd (fst t)), snd t))
        (ratings_ones distinct_first three_rows).
Proof.
  split; [exact distinct_first_NoDup |].
  split; [exact distinct_first_In |].
  split; [exact distinct_reversed_NoDup |].
  split; [exact distinct_reversed_In |].
  exact (order_of_distinct_renames_items distinct_first distinct_reversed
           distinct_first_NoDup distinct_first_In
           distinct_reversed_NoDup distinct_reversed_In three_rows).
Defined.

Lemma ratings_of_a_written_file_witness :
  Forall (fun x => plain (snd (fst x)) /\ printable (snd (fst x)) = true)
         written_rows /\
  ratings (implicit_csv (map line_of written_rows)) =
  inr (filter zero_field written_rows).
Proof.
  assert (H : Forall (fun x => plain (snd (fst x)) /\
                               printable (snd (fst x)) = true) written_rows).
  { repeat constructor. }
  split; [exact H |].
  exact (ratings_of_a_written_file written_rows H).
Defined.
